(** * DevDonalds cookbook: entry validation, ingredient resolution, summary

    A shallow embedding of [src/backend/py_template/devdonalds.py]
    ([create_entry], [summary], [get_base_ingredient_counts]) together with
    the properties of its specification.

    The handlers work on the values [request.get_json()] produces, which are
    dynamically typed; they are embedded as [pyval].  The global [cookbook]
    dictionary is a [gmap string pyval] that is passed explicitly. *)

From stdpp Require Import base option list strings gmap fin_maps fin_map_dom relations.
From Stdlib Require Import ZArith Lia.

Set Warnings "-register-all,-clear-no-such-hyp".

Local Open Scope string_scope.
Local Open Scope list_scope.
Local Open Scope Z_scope.

(** ** Python values *)

(** Python floats are IEEE doubles.  The handlers never inspect one beyond its
    truth value; arithmetic reaches one only through a [quantity] or a
    [cookTime] that validation would have refused.  They are kept abstract:
    every statement below holds for any implementation of these operations. *)
Class FloatOps (float : Type) := {
  float_of_int : Z -> option float;      (* [None]: OverflowError *)
  float_mul : float -> float -> float;
  float_add : float -> float -> float;
  float_nonzero : float -> bool          (* truth value: [f != 0.0] *)
}.

(** What [json.loads] can return.  A [dict] keeps its insertion order (Python
    3.7), so it is an association list; [dict_get] reads the first binding of
    a key and [dict_set] never adds a second one. *)
Inductive pyval (float : Type) : Type :=
  | PNone
  | PBool (b : bool)
  | PInt (z : Z)
  | PFloat (f : float)
  | PStr (s : string)
  | PList (l : list (pyval float))
  | PDict (d : list (string * pyval float)).

Arguments PNone {float}.
Arguments PBool {float} b.
Arguments PInt {float} z.
Arguments PFloat {float} f.
Arguments PStr {float} s.
Arguments PList {float} l.
Arguments PDict {float} d.

(** The exceptions the handlers can meet.  [CannotFind name] is the
    [Exception(f"Cannot find {name} in cookbook")] of the resolver; all of
    them derive from [Exception]. *)
Inductive exn (float : Type) : Type :=
  | AttributeError
  | TypeError
  | KeyError
  | OverflowError
  | RecursionError
  | CannotFind (name : pyval float).

Arguments AttributeError {float}.
Arguments TypeError {float}.
Arguments KeyError {float}.
Arguments OverflowError {float}.
Arguments RecursionError {float}.
Arguments CannotFind {float} name.

(** A computation either returns or raises. *)
Inductive outcome (float A : Type) : Type :=
  | Return (a : A)
  | Raise (e : exn float).

Arguments Return {float A} a.
Arguments Raise {float A} e.

(** What a handler hands back to Flask: a text body or a [jsonify]-ed value,
    with the status code. *)
Inductive response (float : Type) : Type :=
  | Text (body : string) (status : Z)
  | Json (body : pyval float) (status : Z).

Arguments Text {float} body status.
Arguments Json {float} body status.

(** Sequencing: an exception skips the rest.  [x ← c; k] is stdpp's notation
    for [mbind]. *)
#[global] Instance outcome_ret {float : Type} : MRet (outcome float) :=
  fun A a => Return a.
#[global] Instance outcome_bind {float : Type} : MBind (outcome float) :=
  fun A B k o => match o with Return a => k a | Raise e => Raise e end.
#[global] Instance outcome_fmap {float : Type} : FMap (outcome float) :=
  fun A B f o => match o with Return a => Return (f a) | Raise e => Raise e end.

Section Python.
Context {float : Type} `{!FloatOps float}.

Local Abbreviation pyval := (pyval float).
Local Abbreviation exn := (exn float).
Local Abbreviation outcome := (outcome float).
Local Abbreviation response := (response float).

(** [bool(v)] *)
Definition truthy (v : pyval) : bool :=
  match v with
  | PNone => false
  | PBool b => b
  | PInt z => negb (Z.eqb z 0)
  | PFloat f => float_nonzero f
  | PStr s => negb (String.eqb s "")
  | PList l => match l with [] => false | _ => true end
  | PDict d => match d with [] => false | _ => true end
  end.

(** [v is None] *)
Definition is_none (v : pyval) : bool :=
  match v with PNone => true | _ => false end.


(** [isinstance(v, int)]: [bool] is a subclass of [int] in Python, so [True]
    and [False] pass. *)
Definition isinstance_int (v : pyval) : bool :=
  match v with PInt _ | PBool _ => true | _ => false end.

(** [isinstance(v, list)] *)
Definition isinstance_list (v : pyval) : bool :=
  match v with PList _ => true | _ => false end.

(** The integer an [int] instance stands for: [True] is 1 and [False] is 0. *)
Definition as_int (v : pyval) : option Z :=
  match v with
  | PInt z => Some z
  | PBool b => Some (if b then 1 else 0)
  | _ => None
  end.

(** [v == s] for a string literal [s] *)
Definition eq_str (v : pyval) (s : string) : bool :=
  match v with PStr t => String.eqb t s | _ => false end.

(** ** Dictionaries *)

Fixpoint dict_get {A : Type} (d : list (string * A)) (k : string) : option A :=
  match d with
  | [] => None
  | (k', v) :: d' => if String.eqb k' k then Some v else dict_get d' k
  end.

(** [d[k] = v]: an existing key keeps its position, a new one goes last. *)
Fixpoint dict_set {A : Type} (d : list (string * A)) (k : string) (v : A)
  : list (string * A) :=
  match d with
  | [] => [(k, v)]
  | (k', v') :: d' =>
      if String.eqb k' k then (k', v) :: d' else (k', v') :: dict_set d' k v
  end.

(** [v.get(k, default)]: only a [dict] has the method. *)
Definition get_default (v : pyval) (k : string) (fallback : pyval) : outcome pyval :=
  match v with
  | PDict d => Return (default fallback (dict_get d k))
  | _ => Raise AttributeError
  end.

(** [v.get(k)] *)
Definition get (v : pyval) (k : string) : outcome pyval := get_default v k PNone.

(** [v.items()] *)
Definition items (v : pyval) : outcome (list (string * pyval)) :=
  match v with
  | PDict d => Return d
  | _ => Raise AttributeError
  end.

(** [for x in v]: the elements of a list, the characters of a string, the
    keys of a dict; nothing else here is iterable. *)
Fixpoint chars (s : string) : list pyval :=
  match s with
  | EmptyString => []
  | String c s' => PStr (String c EmptyString) :: chars s'
  end.

Definition iter (v : pyval) : outcome (list pyval) :=
  match v with
  | PList l => Return l
  | PStr s => Return (chars s)
  | PDict d => Return (map (fun kv => PStr (fst kv)) d)
  | _ => Raise TypeError
  end.

(** ** Arithmetic *)

Definition str_repeat (s : string) (n : Z) : string :=
  Nat.iter (Z.to_nat n) (String.append s) "".

Definition list_repeat {A : Type} (l : list A) (n : Z) : list A :=
  Nat.iter (Z.to_nat n) (app l) [].

Definition to_float (z : Z) : outcome float :=
  match float_of_int z with
  | Some f => Return f
  | None => Raise OverflowError
  end.

(** [z * v] (and [v * z]) for an [int] instance [z] and a [v] that is not
    one: float product, or sequence repetition. *)
Definition int_times (z : Z) (v : pyval) : outcome pyval :=
  match v with
  | PFloat g => f ← to_float z; Return (PFloat (float_mul f g))
  | PStr s => Return (PStr (str_repeat s z))
  | PList l => Return (PList (list_repeat l z))
  | _ => Raise TypeError
  end.

(** [a * b] *)
Definition mul (a b : pyval) : outcome pyval :=
  match as_int a, as_int b with
  | Some x, Some y => Return (PInt (x * y))
  | Some x, None => int_times x b
  | None, Some y =>
      match a with
      | PFloat f => g ← to_float y; Return (PFloat (float_mul f g))
      | _ => int_times y a
      end
  | None, None =>
      match a, b with
      | PFloat f, PFloat g => Return (PFloat (float_mul f g))
      | _, _ => Raise TypeError
      end
  end.

(** [a + b] *)
Definition add (a b : pyval) : outcome pyval :=
  match as_int a, as_int b with
  | Some x, Some y => Return (PInt (x + y))
  | Some x, None =>
      match b with
      | PFloat g => f ← to_float x; Return (PFloat (float_add f g))
      | _ => Raise TypeError
      end
  | None, Some y =>
      match a with
      | PFloat f => g ← to_float y; Return (PFloat (float_add f g))
      | _ => Raise TypeError
      end
  | None, None =>
      match a, b with
      | PFloat f, PFloat g => Return (PFloat (float_add f g))
      | PStr s, PStr t => Return (PStr (String.append s t))
      | PList l, PList m => Return (PList (app l m))
      | _, _ => Raise TypeError
      end
  end.

(** [k in cookbook] for an arbitrary key.  The keys of [cookbook] are strings;
    lists and dicts are unhashable. *)
Definition contains (cookbook : gmap string pyval) (k : pyval) : outcome bool :=
  match k with
  | PStr s => Return (bool_decide (is_Some (cookbook !! s)))
  | PList _ | PDict _ => Raise TypeError
  | _ => Return false
  end.

(** [not v or not isinstance(v, str)] is false exactly when [v] is a non-empty
    string; [nonempty_str v] is then that string (see [nonempty_str_test]). *)
Definition nonempty_str (v : pyval) : option string :=
  match v with
  | PStr s => if truthy v then Some s else None
  | _ => None
  end.

(** ** Task 2: [create_entry] *)

(** The responses of [create_entry], under the names of the specification's
    taxonomy.  [InvalidRequiredItem] has two messages in the code, and
    [InvalidEntryFormat] has no name in the taxonomy. *)
Definition InvalidEntryFormat : response := Text "Invalid entry format" 400.
Definition InvalidType : response := Text "Type must be recipe or ingredient" 400.
Definition InvalidName : response := Text "Invalid name" 400.
Definition InvalidCookTime : response := Text "Invalid cookTime" 400.
Definition DuplicateName : response := Text "Entry names must be unique" 400.
Definition InvalidRequiredItems : response := Text "Invalid requiredItems" 400.
Definition InvalidRequiredItemName : response := Text "Invalid requiredItem name" 400.
Definition DuplicateRequiredItemName : response :=
  Text "Invalid required items, multiple of the same name" 400.
Definition InvalidRequiredItemQuantity : response :=
  Text "Invalid requiredItem quantity" 400.
Definition Created : response := Text "" 200.

(** [cookTime is None or not isinstance(cookTime, int) or cookTime < 0]; the
    comparison is only reached for an [int] instance. *)
Definition invalid_cook_time (cookTime : pyval) : bool :=
  is_none cookTime || negb (isinstance_int cookTime)
  || match as_int cookTime with Some c => Z.ltb c 0 | None => false end.

(** The [for element in requiredItems] loop with its [seen] set.  [Some r]
    is an early [return r]; [None] means the loop ran to its end. *)
Fixpoint required_items_loop (seen : gset string) (requiredItems : list pyval)
  : outcome (option response) :=
  match requiredItems with
  | [] => Return None
  | element :: rest =>
      requiredName ← get element "name";
      match nonempty_str requiredName with
      | None => Return (Some InvalidRequiredItemName)
      | Some requiredName =>
          if bool_decide (requiredName ∈ seen)
          then Return (Some DuplicateRequiredItemName)
          else
            quantity ← get element "quantity";
            if is_none quantity || negb (isinstance_int quantity)
            then Return (Some InvalidRequiredItemQuantity)
            else required_items_loop (seen ∪ {[requiredName]}) rest
      end
  end.

(** Everything [create_entry] does before it writes: [inl r] is an early
    [return r], [inr name] means validation passed for the key [name]. *)
Definition validate (cookbook : gmap string pyval) (entry : pyval)
  : outcome (response + string) :=
  if negb (truthy entry) then Return (inl InvalidEntryFormat) else
  type ← get entry "type";
  name ← get entry "name";
  requiredItems ← (if eq_str type "recipe" then get entry "requiredItems"
                   else Return PNone);
  cookTime ← (if eq_str type "ingredient" then get entry "cookTime"
              else Return PNone);
  if negb (eq_str type "recipe" || eq_str type "ingredient")
  then Return (inl InvalidType) else
  match nonempty_str name with
  | None => Return (inl InvalidName)
  | Some name =>
      if eq_str type "ingredient" && invalid_cook_time cookTime
      then Return (inl InvalidCookTime) else
      if bool_decide (is_Some (cookbook !! name))
      then Return (inl DuplicateName) else
      if eq_str type "recipe" then
        if is_none requiredItems || negb (isinstance_list requiredItems)
        then Return (inl InvalidRequiredItems) else
        elements ← iter requiredItems;
        early ← required_items_loop ∅ elements;
        match early with
        | Some r => Return (inl r)
        | None => Return (inr name)
        end
      else Return (inr name)
  end.

(** [create_entry]: the handler of [POST /entry].  It takes the cookbook and
    the decoded body and gives what the handler returns or raises, and the
    cookbook afterwards.  The only write is [cookbook[name] = entry], the
    last statement before [return '', 200]. *)
Definition create_entry (cookbook : gmap string pyval) (entry : pyval)
  : outcome response * gmap string pyval :=
  match validate cookbook entry with
  | Raise e => (Raise e, cookbook)
  | Return (inl r) => (Return r, cookbook)
  | Return (inr name) => (Return Created, <[name := entry]> cookbook)
  end.

(** ** Task 3: [get_base_ingredient_counts] and [summary] *)

(** [for ingredientName, quantity in subResult.items():
       result[ingredientName] = result.get(ingredientName, 0) + quantity] *)
Fixpoint merge_counts (subResult result : list (string * pyval))
  : outcome (list (string * pyval)) :=
  match subResult with
  | [] => Return result
  | (ingredientName, quantity) :: rest =>
      total ← add (default (PInt 0) (dict_get result ingredientName)) quantity;
      merge_counts rest (dict_set result ingredientName total)
  end.

(** [for item in entry.get('requiredItems')], with [self] standing for the
    recursive call. *)
Fixpoint required_items_counts (self : pyval -> pyval -> outcome pyval)
    (multiplier : pyval) (requiredItems : list pyval)
    (result : list (string * pyval)) : outcome (list (string * pyval)) :=
  match requiredItems with
  | [] => Return result
  | item :: rest =>
      subName ← get item "name";
      quantity ← get item "quantity";
      scaled ← mul multiplier quantity;
      subResult ← self subName scaled;
      pairs ← items subResult;
      result ← merge_counts pairs result;
      required_items_counts self multiplier rest result
  end.

(** The body of [get_base_ingredient_counts].  A function that falls off its
    end returns [None]. *)
Definition get_base_ingredient_counts_body
    (self : pyval -> pyval -> outcome pyval)
    (cookbook : gmap string pyval) (name multiplier : pyval) : outcome pyval :=
  present ← contains cookbook name;
  if negb present then Raise (CannotFind name) else
  match name with
  | PStr key =>
      match cookbook !! key with
      | None => Raise KeyError
      | Some entry =>
          type ← get entry "type";
          if eq_str type "ingredient" then Return (PDict [(key, multiplier)])
          else
            type ← get entry "type";
            if eq_str type "recipe" then
              requiredItems ← get entry "requiredItems";
              elements ← iter requiredItems;
              result ← required_items_counts self multiplier elements [];
              Return (PDict result)
            else Return PNone
      end
  | _ => Raise KeyError
  end.

(** [get_base_ingredient_counts], with the interpreter's bound on the depth
    of the call stack: [limit] frames are left for it, and a call that finds
    none raises [RecursionError]. *)
Fixpoint get_base_ingredient_counts (limit : nat)
    (cookbook : gmap string pyval) (name multiplier : pyval) : outcome pyval :=
  match limit with
  | O => Raise RecursionError
  | S limit' =>
      get_base_ingredient_counts_body
        (get_base_ingredient_counts limit' cookbook) cookbook name multiplier
  end.

Definition RecipeNotFound : response := Text "Recipe not found" 400.
Definition NotARecipe : response := Text "Can only summarise recipe types" 400.
Definition IngredientResolutionFailed : response :=
  Text "A base ingredient provided does not exist in the cookbook" 400.

(** The loop of [summary] that adds up the cook time and builds the list. *)
Fixpoint summary_loop (cookbook : gmap string pyval)
    (base_ingredients : list (string * pyval))
    (totalCookTime : pyval) (ingredientsList : list pyval)
  : outcome (pyval * list pyval) :=
  match base_ingredients with
  | [] => Return (totalCookTime, ingredientsList)
  | (ingredientName, quantity) :: rest =>
      match cookbook !! ingredientName with
      | None => Raise KeyError
      | Some ingredient =>
          cookTime ← get_default ingredient "cookTime" (PInt 0);
          time ← mul quantity cookTime;
          totalCookTime ← add totalCookTime time;
          summary_loop cookbook rest totalCookTime
            (ingredientsList ++
               [PDict [("name", PStr ingredientName); ("quantity", quantity)]])%list
      end
  end.

(** [summary]: the handler of [GET /summary?name=...].  [recipe] is
    [request.args.get('name')]: a string, or [None] without the parameter.
    [except Exception] catches every exception of [exn]. *)
Definition summary (limit : nat) (cookbook : gmap string pyval)
    (recipe : option string) : outcome response :=
  match recipe with
  | None => Return RecipeNotFound
  | Some recipe =>
      if negb (truthy (PStr recipe)) then Return RecipeNotFound else
      match cookbook !! recipe with
      | None => Return RecipeNotFound
      | Some entry =>
          type ← get entry "type";
          if negb (eq_str type "recipe") then Return NotARecipe else
          match get_base_ingredient_counts limit cookbook (PStr recipe) (PInt 1) with
          | Raise _ => Return IngredientResolutionFailed
          | Return base_ingredients =>
              pairs ← items base_ingredients;
              '(totalCookTime, ingredientsList) ←
                 summary_loop cookbook pairs (PInt 0) [];
              Return (Json (PDict [("name", PStr recipe);
                                   ("cookTime", totalCookTime);
                                   ("ingredients", PList ingredientsList)]) 200)
          end
      end
  end.

(** ** The shape of a stored entry *)

(** The data model of the specification: an entry is an ingredient with its
    cook time or a recipe with its required items, and the registry maps
    names to entries. *)
Inductive Entry : Type :=
  | Ingredient (cookTime : Z)
  | Recipe (requiredItems : list (string * Z)).

(** The typed reading of a [requiredItems] element: a dict whose [name] is a
    non-empty string and whose [quantity] is an [int] instance. *)
Definition item_view (element : pyval) : option (string * Z) :=
  match element with
  | PDict d =>
      match nonempty_str (default PNone (dict_get d "name")),
            as_int (default PNone (dict_get d "quantity")) with
      | Some name, Some quantity => Some (name, quantity)
      | _, _ => None
      end
  | _ => None
  end.

(** The typed reading of a stored payload, by its [type] field. *)
Definition entry_view (entry : pyval) : option Entry :=
  match entry with
  | PDict d =>
      let type := default PNone (dict_get d "type") in
      if eq_str type "ingredient" then
        Ingredient <$> as_int (default PNone (dict_get d "cookTime"))
      else if eq_str type "recipe" then
        match default PNone (dict_get d "requiredItems") with
        | PList elements => Recipe <$> mapM item_view elements
        | _ => None
        end
      else None
  | _ => None
  end.

(** What the specification requires of the entry stored under [name]. *)
Definition entry_wf (name : string) (entry : pyval) : Prop :=
  name ≠ "" ∧ get entry "name" = Return (PStr name) ∧
  match entry_view entry with
  | Some (Ingredient cookTime) => 0 ≤ cookTime
  | Some (Recipe requiredItems) => NoDup requiredItems.*1
  | None => False
  end.

Definition registry_wf (cookbook : gmap string pyval) : Prop :=
  map_Forall entry_wf cookbook.

(** The registries the program can be in: the empty [cookbook] of the module,
    and what a [create_entry] leaves. *)
Inductive reachable : gmap string pyval -> Prop :=
  | reachable_empty : reachable ∅
  | reachable_create cookbook entry :
      reachable cookbook -> reachable (create_entry cookbook entry).2.

(** The typed registry a cookbook stands for. *)
Definition registry_of (cookbook : gmap string pyval) : gmap string Entry :=
  omap entry_view cookbook.

(** ** The reference graph *)

(** [requires registry a b]: [a] is a recipe and [b] is one of its required
    items. *)
Definition requires (registry : gmap string Entry) (a b : string) : Prop :=
  ∃ requiredItems,
    registry !! a = Some (Recipe requiredItems) ∧ b ∈ requiredItems.*1.

Definition acyclic (registry : gmap string Entry) : Prop :=
  ∀ a, ¬ tc (requires registry) a a.

(** A cycle can be reached from [name]. *)
Definition reaches_cycle (registry : gmap string Entry) (name : string) : Prop :=
  ∃ a, rtc (requires registry) name a ∧ tc (requires registry) a a.


(** [resolves cookbook name]: with some stack, the resolver returns a mapping
    for [name]. *)
Definition resolves (cookbook : gmap string pyval) (name : string) : Prop :=
  ∃ limit v,
    get_base_ingredient_counts limit cookbook (PStr name) (PInt 1) = Return v.

(** [enters cookbook a b]: the loop over the required items of the recipe [a]
    gets to its item [b], that is, the items listed before [b] all resolve.
    These are the steps of the depth-first traversal. *)
Definition enters (cookbook : gmap string pyval) (a b : string) : Prop :=
  ∃ before quantity after,
    registry_of cookbook !! a = Some (Recipe (before ++ (b, quantity) :: after)) ∧
    ∀ x, x ∈ before.*1 → resolves cookbook x.

(** ** The resolver on typed registries *)

(** The three functions below are [merge_counts], [required_items_counts] and
    [get_base_ingredient_counts] read on integers; [counts_typed] states that
    they agree with the code on every well-formed cookbook. *)
Fixpoint merge_typed (subResult result : list (string * Z)) : list (string * Z) :=
  match subResult with
  | [] => result
  | (ingredientName, quantity) :: rest =>
      merge_typed rest
        (dict_set result ingredientName
           (default 0 (dict_get result ingredientName) + quantity))
  end.

Fixpoint items_typed (self : string -> Z -> outcome (list (string * Z)))
    (multiplier : Z) (requiredItems : list (string * Z))
    (result : list (string * Z)) : outcome (list (string * Z)) :=
  match requiredItems with
  | [] => Return result
  | (subName, quantity) :: rest =>
      subResult ← self subName (multiplier * quantity);
      items_typed self multiplier rest (merge_typed subResult result)
  end.

Fixpoint counts_typed_of (limit : nat) (registry : gmap string Entry)
    (name : string) (multiplier : Z) : outcome (list (string * Z)) :=
  match limit with
  | O => Raise RecursionError
  | S limit' =>
      match registry !! name with
      | None => Raise (CannotFind (PStr name))
      | Some (Ingredient _) => Return [(name, multiplier)]
      | Some (Recipe requiredItems) =>
          items_typed (counts_typed_of limit' registry) multiplier requiredItems []
      end
  end.

(** A dict of integers as a Python value. *)
Definition int_pairs (d : list (string * Z)) : list (string * pyval) :=
  prod_map id PInt <$> d.

Definition int_dict (d : list (string * Z)) : pyval := PDict (int_pairs d).

(** ** The resolver of the specification *)

Inductive ResolutionError : Type :=
  | UnknownReference (name : string).

(** Merging two mappings sums the quantities of the keys they share. *)
Definition merge_sum (a b : gmap string Z) : gmap string Z :=
  union_with (fun x y => Some (x + y)) a b.

(** [resolve], following section 4.2 of the specification: an absent name
    fails with [UnknownReference], an ingredient gives the singleton mapping,
    a recipe merges the resolutions of its required items, taken in order,
    and the first failure aborts.  [fuel] bounds the depth of the recursion;
    [None] means that it was not enough. *)
Fixpoint resolve_items (self : string -> Z -> option (ResolutionError + gmap string Z))
    (multiplier : Z) (requiredItems : list (string * Z)) (acc : gmap string Z)
  : option (ResolutionError + gmap string Z) :=
  match requiredItems with
  | [] => Some (inr acc)
  | (subName, quantity) :: rest =>
      match self subName (multiplier * quantity) with
      | None => None
      | Some (inl err) => Some (inl err)
      | Some (inr sub) => resolve_items self multiplier rest (merge_sum acc sub)
      end
  end.

Fixpoint resolve (fuel : nat) (registry : gmap string Entry)
    (name : string) (multiplier : Z) : option (ResolutionError + gmap string Z) :=
  match fuel with
  | O => None
  | S fuel' =>
      match registry !! name with
      | None => Some (inl (UnknownReference name))
      | Some (Ingredient _) => Some (inr {[ name := multiplier ]})
      | Some (Recipe requiredItems) =>
          resolve_items (resolve fuel' registry) multiplier requiredItems ∅
      end
  end.

(** How an outcome of [get_base_ingredient_counts] reads as a result of
    [resolve]: a returned dict of integers is the mapping with its bindings,
    the exception for a missing name is [UnknownReference], and running out
    of stack is running out of fuel. *)
Inductive refines : outcome pyval -> option (ResolutionError + gmap string Z) -> Prop :=
  | refines_mapping d :
      NoDup d.*1 -> refines (Return (int_dict d)) (Some (inr (list_to_map d)))
  | refines_unknown name :
      refines (Raise (CannotFind (PStr name))) (Some (inl (UnknownReference name)))
  | refines_depth :
      refines (Raise RecursionError) None.

(** The status code of a response. *)
Definition status (r : response) : Z :=
  match r with Text _ s | Json _ s => s end.

(** The responses that stand for a reason of the validation taxonomy of the
    specification (section 7). *)
Definition taxonomy : list response :=
  [InvalidType; InvalidName; InvalidCookTime; DuplicateName;
   InvalidRequiredItems; InvalidRequiredItemName; InvalidRequiredItemQuantity;
   DuplicateRequiredItemName].

(** Every quantity of a mapping multiplied by [k]. *)
Definition scale_counts (k : Z) (d : list (string * Z)) : list (string * Z) :=
  prod_map id (Z.mul k) <$> d.

End Python.

(** ** Concrete payloads and registries *)

(** Payloads without floats: an instance of [FloatOps] on the empty type. *)
#[global] Instance no_floats : FloatOps Empty_set := {|
  float_of_int := fun _ => None;
  float_mul := fun f _ => f;
  float_add := fun f _ => f;
  float_nonzero := fun _ => false
|}.

Definition ingredient_payload (name : string) (cookTime : Z) : pyval Empty_set :=
  PDict [("type", PStr "ingredient"); ("name", PStr name); ("cookTime", PInt cookTime)].

Definition item_payload (name : string) (quantity : Z) : pyval Empty_set :=
  PDict [("name", PStr name); ("quantity", PInt quantity)].

Definition recipe_payload (name : string) (requiredItems : list (pyval Empty_set))
  : pyval Empty_set :=
  PDict [("type", PStr "recipe"); ("name", PStr name);
         ("requiredItems", PList requiredItems)].

(** The cookbook after a sequence of [POST /entry] requests. *)
Definition posted (entries : list (pyval Empty_set)) : gmap string (pyval Empty_set) :=
  foldl (fun cookbook entry => (create_entry cookbook entry).2) ∅ entries.

(** The registry of section 8 of the specification. *)
Definition pasta_book : gmap string (pyval Empty_set) :=
  posted [ingredient_payload "egg" 10; ingredient_payload "flour" 0;
          recipe_payload "dough" [item_payload "flour" 2];
          recipe_payload "pasta" [item_payload "dough" 1; item_payload "egg" 3]].


(** Two recipes that require each other; the first asks for a missing entry
    before it asks for the second. *)
Definition loop_after_missing_book : gmap string (pyval Empty_set) :=
  posted [recipe_payload "A" [item_payload "missing" 1; item_payload "B" 1];
          recipe_payload "B" [item_payload "A" 1]].

(** Two recipes that require each other. *)
Definition loop_book : gmap string (pyval Empty_set) :=
  posted [recipe_payload "A" [item_payload "B" 1];
          recipe_payload "B" [item_payload "A" 1]].

(** The same two recipes, the first asking for the second before it asks for
    the missing entry. *)
Definition loop_before_missing_book : gmap string (pyval Empty_set) :=
  posted [recipe_payload "A" [item_payload "B" 1; item_payload "missing" 1];
          recipe_payload "B" [item_payload "A" 1]].

(** An ingredient whose [cookTime] is the JSON value [true], and a recipe
    whose only required item has the quantity [true]. *)
Definition salt_payload : pyval Empty_set :=
  PDict [("type", PStr "ingredient"); ("name", PStr "salt");
         ("cookTime", PBool true)].

Definition brine_payload : pyval Empty_set :=
  recipe_payload "brine"
    [PDict [("name", PStr "salt"); ("quantity", PBool true)]].

Definition brine_book : gmap string (pyval Empty_set) :=
  posted [salt_payload; brine_payload].

(** A cake whose batter and icing both need sugar. *)
Definition cake_book : gmap string (pyval Empty_set) :=
  posted [ingredient_payload "sugar" 1;
          recipe_payload "batter" [item_payload "sugar" 3];
          recipe_payload "icing" [item_payload "sugar" 2];
          recipe_payload "cake" [item_payload "batter" 2; item_payload "icing" 1]].

(** ** Summaries in closed form *)

(** The cook time the typed registry has for [name]; 0 where it has none. *)
Definition cook_time (registry : gmap string Entry) (name : string) : Z :=
  match registry !! name with
  | Some (Ingredient cookTime) => cookTime
  | _ => 0
  end.

(** The sum of quantity times cook time over a mapping, taken from [start]
    in the order of the mapping. *)
Definition total_cook_time (registry : gmap string Entry) (start : Z)
    (d : list (string * Z)) : Z :=
  foldl (fun total nq => total + nq.2 * cook_time registry nq.1) start d.

(** The [{'name': ..., 'quantity': ...}] objects of a mapping, in its order. *)
Definition ingredient_objects {float : Type} (d : list (string * Z))
  : list (pyval float) :=
  (fun nq => PDict [("name", PStr nq.1); ("quantity", PInt nq.2)]) <$> d.

(** A recipe payload and a required item, for any kind of float. *)
Definition recipe_object {float : Type} (name : string)
    (requiredItems : list (pyval float)) : pyval float :=
  PDict [("type", PStr "recipe"); ("name", PStr name);
         ("requiredItems", PList requiredItems)].

Definition item_object {float : Type} (name : string) (quantity : Z) : pyval float :=
  PDict [("name", PStr name); ("quantity", PInt quantity)].

(** ** Task 1: [parse_handwriting] *)

(** A Python [str] is a sequence of code points.  Which of them are
    whitespace (what [\s] matches in a [str] pattern, and what [str.strip]
    removes) is a table of the interpreter; it is the parameter [isspace]. *)
Section Handwriting.
Variable isspace : N -> bool.

(** [A-Z], [a-z] and [A-Za-z] *)
Definition is_upper (c : N) : bool := N.leb 65 c && N.leb c 90.
Definition is_lower (c : N) : bool := N.leb 97 c && N.leb c 122.
Definition is_letter (c : N) : bool := is_upper c || is_lower c.

(** The class [[\s_-]] *)
Definition separator (c : N) : bool :=
  isspace c || N.eqb c 95 || N.eqb c 45.

(** [re.sub(r'[\s_-]+', ' ', s)]: every maximal run of separators becomes one
    space.  [inside] tells that the previous character was one of the run. *)
Fixpoint sub_separators (inside : bool) (s : list N) : list N :=
  match s with
  | [] => []
  | c :: s' =>
      if separator c
      then (if inside then sub_separators true s'
            else 32%N :: sub_separators true s')
      else c :: sub_separators false s'
  end.

(** [s.lstrip()], [s.rstrip()] and [s.strip()] *)
Fixpoint lstrip (s : list N) : list N :=
  match s with
  | [] => []
  | c :: s' => if isspace c then lstrip s' else s
  end.

Fixpoint rstrip (s : list N) : list N :=
  match s with
  | [] => []
  | c :: s' =>
      match rstrip s' with
      | [] => if isspace c then [] else [c]
      | r => c :: r
      end
  end.

Definition strip (s : list N) : list N := rstrip (lstrip s).

(** [re.sub(r'[^\sA-Za-z]', '', s)]: what is neither whitespace nor a letter
    goes. *)
Definition sub_others (s : list N) : list N :=
  List.filter (fun c => isspace c || is_letter c) s.

Definition to_upper (c : N) : N := if is_lower c then (c - 32)%N else c.
Definition to_lower (c : N) : N := if is_upper c then (c + 32)%N else c.

(** [s.title()] for a string of spaces and ASCII letters, which is all that
    the second substitution leaves of the first ([cleaned_alphabet]): a
    letter after a letter is put in lower case, any other letter in upper
    case.  [previous_is_cased] is the flag of CPython's loop. *)
Fixpoint title (previous_is_cased : bool) (s : list N) : list N :=
  match s with
  | [] => []
  | c :: s' =>
      (if previous_is_cased then to_lower c else to_upper c)
        :: title (is_letter c) s'
  end.

(** The two substitutions of [parse_handwriting], with the [strip] between
    them. *)
Definition cleaned (recipeName : list N) : list N :=
  sub_others (strip (sub_separators false recipeName)).

(** [parse_handwriting]; [None] is Python's [None]. *)
Definition parse_handwriting (recipeName : list N) : option (list N) :=
  let recipeName := cleaned recipeName in
  if Nat.eqb (length recipeName) 0 then None
  else Some (title false recipeName).

(** Words of letters with one space between two of them, and no space in
    front or at the end.  [after_space] tells that a letter has to come. *)
Fixpoint spaced_words (after_space : bool) (s : list N) : bool :=
  match s with
  | [] => negb after_space
  | c :: s' =>
      if N.eqb c 32 then negb after_space && spaced_words true s'
      else is_letter c && spaced_words false s'
  end.

End Handwriting.

(** The whitespace of CPython's [Py_UNICODE_ISSPACE]. *)
Definition unicode_isspace (c : N) : bool :=
  (N.leb 9 c && N.leb c 13) || (N.leb 28 c && N.leb c 32)
  || N.eqb c 133 || N.eqb c 160 || N.eqb c 5760
  || (N.leb 8192 c && N.leb c 8202)
  || N.eqb c 8232 || N.eqb c 8233 || N.eqb c 8239 || N.eqb c 8287
  || N.eqb c 12288.

(** The code points of an ASCII literal. *)
Fixpoint code_points (s : string) : list N :=
  match s with
  | EmptyString => []
  | String c s' => Ascii.N_of_ascii c :: code_points s'
  end.


(** * Properties *)

Section Properties.
Context {float : Type} `{!FloatOps float}.

Local Abbreviation pyval := (pyval float).
Local Abbreviation exn := (exn float).
Local Abbreviation outcome := (outcome float).
Local Abbreviation response := (response float).

Local Abbreviation int_pairs := (@int_pairs float).
Local Abbreviation int_dict := (@int_dict float).
Local Abbreviation refines := (@refines float).
Local Abbreviation items_typed := (@items_typed float).
Local Abbreviation counts_typed_of := (@counts_typed_of float).

Implicit Types (cookbook : gmap string pyval) (entry v : pyval).

(** ** Validation *)


Lemma nonempty_str_Some v s :
  nonempty_str v = Some s ↔ v = PStr s ∧ s ≠ "".
Proof.
  destruct v as [| | | |t| |]; simpl; try (split; [done | intros [? _]; done]).
  destruct (String.eqb_spec t ""); simpl; split.
  - done.
  - intros [[= ->] ?]. done.
  - intros [= ->]. done.
  - intros [[= ->] ?]. done.
Qed.

(** A rejection, or an exception, leaves the cookbook as it was. *)
Lemma create_entry_unchanged cookbook entry :
  (create_entry cookbook entry).1 ≠ Return Created →
  (create_entry cookbook entry).2 = cookbook.
Proof.
  unfold create_entry.
  destruct (validate cookbook entry) as [[r|name]|e]; simpl; [done| |done].
  intros H. by destruct H.
Qed.

Lemma required_items_loop_status seen elements r :
  required_items_loop seen elements = Return (Some r) → status r = 400.
Proof.
  revert seen. induction elements as [|element rest IH]; intros seen; simpl; [done|].
  destruct (get element "name") as [requiredName|]; simpl; [|done].
  destruct (nonempty_str requiredName) as [name|]; [|by intros [= <-]].
  case_bool_decide; [by intros [= <-]|].
  destruct (get element "quantity") as [quantity|]; simpl; [|done].
  destruct (is_none quantity || negb (isinstance_int quantity)); [by intros [= <-]|].
  apply IH.
Qed.

Lemma validate_status cookbook entry r :
  validate cookbook entry = Return (inl r) → status r = 400.
Proof.
  unfold validate.
  destruct (negb (truthy entry)); [by intros [= <-]|].
  destruct (get entry "type") as [type|]; simpl; [|done].
  destruct (get entry "name") as [name|]; simpl; [|done].
  destruct (if eq_str type "recipe" then _ else _) as [requiredItems|]; simpl; [|done].
  destruct (if eq_str type "ingredient" then _ else _) as [cookTime|]; simpl; [|done].
  destruct (negb _); [by intros [= <-]|].
  destruct (nonempty_str name) as [key|]; [|by intros [= <-]].
  destruct (_ && _); [by intros [= <-]|].
  case_bool_decide; [by intros [= <-]|].
  destruct (eq_str type "recipe"); [|done].
  destruct requiredItems as [| | | | |elements|]; simpl; try by intros [= <-].
  destruct (required_items_loop ∅ elements) as [[r'|]|] eqn:E; simpl; [|done|done].
  intros [= <-]. by eapply required_items_loop_status.
Qed.

Lemma required_items_loop_accepts seen elements :
  required_items_loop seen elements = Return None →
  ∃ requiredItems, mapM item_view elements = Some requiredItems ∧
    NoDup requiredItems.*1 ∧ ∀ name, name ∈ requiredItems.*1 → name ∉ seen.
Proof.
  revert seen. induction elements as [|element rest IH]; intros seen; simpl.
  { intros _. exists []. split; [done|]. split; [constructor|]. intros ? []%elem_of_nil. }
  destruct element as [| | | | | |d]; simpl; try done.
  destruct (nonempty_str _) as [name|] eqn:Hname; [|done].
  case_bool_decide as Hseen; [done|].
  destruct (is_none _ || negb _) eqn:Hq; [done|].
  intros (its & Hits & Hnd & Hfresh)%IH.
  destruct (as_int (default PNone (dict_get d "quantity"))) as [q|] eqn:Hint.
  2:{ destruct (dict_get d "quantity") as [[]|]; simpl in *; done. }
  exists ((name, q) :: its). split.
  { simpl. by rewrite Hits. }
  simpl. split.
  - constructor; [|done]. intros Hin. apply Hfresh in Hin. set_solver.
  - intros n [->|Hin]%elem_of_cons; [done|]. apply Hfresh in Hin. set_solver.
Qed.

(** What an accepting validation has checked. *)
Lemma validate_accepts cookbook entry name :
  validate cookbook entry = Return (inr name) →
  cookbook !! name = None ∧ entry_wf name entry.
Proof.
  unfold validate, entry_wf.
  destruct (negb (truthy entry)); [done|].
  destruct entry as [| | | | | |d]; try done.
  unfold entry_view, get, get_default. cbv zeta. cbn [mbind outcome_bind].
  generalize (default PNone (dict_get d "name")).
  generalize (default PNone (dict_get d "type")).
  intros type n.
  destruct (eq_str type "recipe") eqn:Hrecipe;
    destruct (eq_str type "ingredient") eqn:Hingredient; simpl; try done.
  - destruct type as [| | | |t| |]; try done. simpl in *.
    apply String.eqb_eq in Hrecipe, Hingredient. congruence.
  - destruct (nonempty_str n) as [key|] eqn:Hkey; [|done].
    case_bool_decide as Hdup; [done|].
    destruct (dict_get d "requiredItems") as [[| | | | |elements|]|]; simpl; try done.
    destruct (required_items_loop _ elements) as [[r|]|] eqn:Hloop; simpl; try done.
    intros [= <-]. apply nonempty_str_Some in Hkey as [-> Hne].
    apply required_items_loop_accepts in Hloop as (its & -> & Hnd & _).
    split; [by apply eq_None_not_Some|]. done.
  - destruct (nonempty_str n) as [key|] eqn:Hkey; [|done].
    destruct (invalid_cook_time _) eqn:Hcook; [done|].
    case_bool_decide as Hdup; [done|].
    intros [= <-]. apply nonempty_str_Some in Hkey as [-> Hne].
    split; [by apply eq_None_not_Some|]. split; [done|]. split; [done|].
    unfold invalid_cook_time in Hcook.
    destruct (dict_get d "cookTime") as [[| |c| | | |]|]; simpl in *; try done.
    + by destruct b.
    + lia.
Qed.

(** [create_entry] either leaves the cookbook alone or inserts the payload,
    as it came, under a name that was free. *)
Lemma create_entry_cookbook cookbook entry :
  (create_entry cookbook entry).2 = cookbook ∨
  ∃ name, cookbook !! name = None ∧ entry_wf name entry ∧
          (create_entry cookbook entry).1 = Return Created ∧
          (create_entry cookbook entry).2 = <[name := entry]> cookbook.
Proof.
  unfold create_entry.
  destruct (validate cookbook entry) as [[r|name]|e] eqn:E; simpl; auto.
  apply validate_accepts in E as [??]. right. eauto.
Qed.

Lemma registry_wf_empty : registry_wf (∅ : gmap string pyval).
Proof. apply map_Forall_empty. Qed.

Lemma create_entry_wf cookbook entry :
  registry_wf cookbook → registry_wf (create_entry cookbook entry).2.
Proof.
  intros Hwf. destruct (create_entry_cookbook cookbook entry)
    as [->|(name & Hfree & Hentry & _ & ->)]; [done|].
  by apply map_Forall_insert_2.
Qed.

Lemma reachable_wf cookbook : reachable cookbook → registry_wf cookbook.
Proof.
  induction 1; [apply registry_wf_empty | by apply create_entry_wf].
Qed.

(** Stored entries are never touched again. *)
Lemma create_entry_preserves cookbook entry name stored :
  cookbook !! name = Some stored →
  (create_entry cookbook entry).2 !! name = Some stored.
Proof.
  intros Hstored. destruct (create_entry_cookbook cookbook entry)
    as [->|(key & Hfree & _ & _ & ->)]; [done|].
  rewrite lookup_insert_ne; [done|]. congruence.
Qed.

(** On objects the validator always answers: the loop raises only on an
    element that is not an object, and [create_entry] only on a payload that
    is not one. *)
Lemma required_items_loop_objects seen elements :
  Forall (λ element, ∃ d, element = PDict d) elements →
  ∃ early, required_items_loop seen elements = Return early.
Proof.
  intros Hobjects. revert seen.
  induction Hobjects as [|element elements [d ->] _ IH]; intros seen; simpl;
    [eauto|].
  destruct (nonempty_str _); [|eauto].
  case_bool_decide; [eauto|]. destruct (_ || _); eauto.
Qed.

Lemma create_entry_answers cookbook d :
  (∀ elements, dict_get d "requiredItems" = Some (PList elements) →
               Forall (λ element, ∃ e, element = PDict e) elements) →
  ∃ r, (create_entry cookbook (PDict d)).1 = Return r.
Proof.
  intros Hobjects. unfold create_entry, validate.
  destruct (negb (truthy (PDict d))); [eauto|].
  cbn [get get_default mbind outcome_bind].
  destruct (eq_str (default PNone (dict_get d "type")) "recipe") eqn:Hrecipe;
    destruct (eq_str (default PNone (dict_get d "type")) "ingredient");
    cbn [mbind outcome_bind orb negb]; try (simpl; eauto; fail);
    destruct (nonempty_str _); try (simpl; eauto; fail);
    cbn [andb]; try destruct (invalid_cook_time _); try (simpl; eauto; fail);
    case_bool_decide; try (simpl; eauto; fail).
  - destruct (dict_get d "requiredItems") as [[| | | | |elements|]|] eqn:Hitems;
      simpl; eauto.
    destruct (required_items_loop_objects ∅ elements) as [[r|] ->]; simpl; eauto.
  - destruct (dict_get d "requiredItems") as [[| | | | |elements|]|] eqn:Hitems;
      simpl; eauto.
    destruct (required_items_loop_objects ∅ elements) as [[r|] ->]; simpl; eauto.
Qed.

(** ** Claims about [create_entry] *)

(** C10: a falsy payload (None, False, 0, 0.0, the empty string, list or
    object) is answered with "Invalid entry format", a response that is none
    of those of the taxonomy and in particular not the one of the type check,
    and the cookbook stays as it was. *)
Theorem falsy_payload_invalid_entry_format cookbook entry :
  truthy entry = false →
  create_entry cookbook entry = (Return InvalidEntryFormat, cookbook) ∧
  (InvalidEntryFormat : response) = Text "Invalid entry format" 400 ∧
  ((InvalidEntryFormat : response) ∉ taxonomy) ∧
  (InvalidEntryFormat : response) ≠ InvalidType.
Proof.
  intros Hfalsy. split; [|split; [done|split]].
  - unfold create_entry, validate. by rewrite Hfalsy.
  - unfold taxonomy. rewrite !elem_of_cons, elem_of_nil.
    intros H. repeat destruct H as [H|H]; done.
  - done.
Qed.

(** C6, where the code departs from it: a payload that is true but not an
    object, and a [requiredItems] element that is not an object, make
    [create_entry] raise [AttributeError] instead of answering. *)
Theorem create_entry_raises_attribute_error cookbook :
  create_entry cookbook (PList [PInt 1]) = (Raise AttributeError, cookbook) ∧
  create_entry cookbook (PStr "egg") = (Raise AttributeError, cookbook) ∧
  create_entry ∅
    (PDict [("type", PStr "recipe"); ("name", PStr "soup");
            ("requiredItems", PList [PStr "water"])])
  = (Raise AttributeError, ∅).
Proof. done. Qed.

(** C4: whenever [create_entry] does not answer 200 (it rejects, for whatever
    reason, or raises) the cookbook is exactly what it was; and a payload
    that passes the type, name and cookTime rules under a name that is
    already in the cookbook is answered with "Entry names must be unique",
    the entry stored first staying in place. *)
Theorem create_entry_atomic cookbook entry :
  ((create_entry cookbook entry).1 ≠ Return Created →
   (create_entry cookbook entry).2 = cookbook) ∧
  (∀ type n name cookTime first,
     get entry "type" = Return type →
     eq_str type "recipe" || eq_str type "ingredient" = true →
     get entry "name" = Return n →
     nonempty_str n = Some name →
     get entry "cookTime" = Return cookTime →
     (eq_str type "ingredient" = true → invalid_cook_time cookTime = false) →
     cookbook !! name = Some first →
     create_entry cookbook entry = (Return DuplicateName, cookbook) ∧
     (create_entry cookbook entry).2 !! name = Some first).
Proof.
  split; [apply create_entry_unchanged|].
  intros type n name cookTime first Htype Hrule1 Hn Hname HcookTime Hrule3 Hfirst.
  assert (create_entry cookbook entry = (Return DuplicateName, cookbook)) as ->;
    [|done].
  unfold create_entry, validate.
  destruct entry as [| | | | | |d]; try done.
  destruct d as [|kv d]; [by destruct type|]. simpl negb. cbv iota.
  rewrite Htype, Hn. cbn [mbind outcome_bind].
  assert ((if eq_str type "ingredient" then get (PDict (kv :: d)) "cookTime"
           else Return PNone)
          = Return (if eq_str type "ingredient" then cookTime else PNone)) as ->.
  { rewrite HcookTime. by destruct (eq_str type "ingredient"). }
  destruct (if eq_str type "recipe" then _ else _) eqn:E.
  2:{ destruct (eq_str type "recipe"); done. }
  cbn [mbind outcome_bind]. rewrite Hrule1, Hname. simpl negb. cbv iota.
  destruct (eq_str type "ingredient") eqn:Hingredient; simpl andb.
  - rewrite Hrule3 by done. rewrite Hfirst. by rewrite bool_decide_eq_true_2.
  - rewrite Hfirst. by rewrite bool_decide_eq_true_2.
Qed.


(** The loop walks over valid elements with new names, remembering them. *)
Lemma required_items_loop_app seen prefix requiredItems elements :
  mapM item_view prefix = Some requiredItems →
  NoDup requiredItems.*1 →
  (∀ name, name ∈ requiredItems.*1 → name ∉ seen) →
  required_items_loop seen (prefix ++ elements) =
  required_items_loop (seen ∪ list_to_set requiredItems.*1) elements.
Proof.
  revert seen requiredItems.
  induction prefix as [|element prefix IH]; intros seen its Hits Hnd Hfresh.
  { injection Hits as <-. simpl. f_equal. set_solver. }
  apply mapM_Some in Hits. inversion Hits as [|? [name q] ? its' Hview Hrest]; subst.
  apply mapM_Some in Hrest. simpl in Hnd. apply NoDup_cons in Hnd as [Hname Hnd].
  destruct element as [| | | | | |d]; try done. simpl in Hview.
  destruct (nonempty_str _) as [name'|] eqn:Hn; [|done].
  destruct (as_int _) as [q'|] eqn:Hq; [|done]. injection Hview as -> ->.
  simpl. unfold default in *. rewrite Hn.
  rewrite bool_decide_eq_false_2 by (apply Hfresh; set_solver).
  assert (is_none (default PNone (dict_get d "quantity"))
          || negb (isinstance_int (default PNone (dict_get d "quantity"))) = false)
    as Hok.
  { unfold default. by destruct (dict_get d "quantity") as [[]|]. }
  unfold default in Hok. rewrite Hok.
  rewrite (IH _ its') by (try done; intros n Hin; specialize (Hfresh n); set_solver).
  f_equal. set_solver.
Qed.



(** ** The resolver on well-formed cookbooks *)

Lemma dict_get_int_pairs d k :
  dict_get (int_pairs d) k = (PInt <$> dict_get d k : option pyval).
Proof.
  induction d as [|[k' x] d IH]; simpl; [done|].
  by destruct (String.eqb k' k).
Qed.

Lemma dict_set_int_pairs d k x :
  dict_set (int_pairs d) k (PInt x : pyval) = int_pairs (dict_set d k x).
Proof.
  induction d as [|[k' y] d IH]; simpl; [done|].
  destruct (String.eqb k' k); simpl; [done|]. by rewrite IH.
Qed.

Lemma merge_counts_typed subResult result :
  merge_counts (int_pairs subResult) (int_pairs result)
  = (Return (int_pairs (merge_typed subResult result)) : outcome _).
Proof.
  revert result. induction subResult as [|[k x] sub IH]; intros result; simpl;
    [done|].
  rewrite dict_get_int_pairs. destruct (dict_get result k) as [y|]; simpl.
  - rewrite dict_set_int_pairs. apply IH.
  - rewrite dict_set_int_pairs. apply IH.
Qed.

Lemma required_items_counts_typed self self' multiplier elements requiredItems result :
  (∀ subName quantity,
     self (PStr subName) (PInt quantity) = int_dict <$> self' subName quantity) →
  mapM item_view elements = Some requiredItems →
  required_items_counts self (PInt multiplier) elements (int_pairs result)
  = int_pairs <$> items_typed self' multiplier requiredItems result.
Proof.
  intros Hself. revert requiredItems result.
  induction elements as [|element elements IH]; intros its result Hits.
  { by injection Hits as <-. }
  apply mapM_Some in Hits.
  inversion Hits as [|? [subName quantity] ? its' Hview Hrest]; subst.
  apply mapM_Some in Hrest.
  destruct element as [| | | | | |d]; try done. simpl in Hview.
  destruct (nonempty_str _) as [s|] eqn:Hname; [|done].
  destruct (as_int _) as [q|] eqn:Hq; [|done]. injection Hview as -> ->.
  apply nonempty_str_Some in Hname as [Hname _].
  cbn [required_items_counts get get_default mbind outcome_bind items_typed].
  rewrite Hname. unfold mul. cbn [as_int]. rewrite Hq.
  cbn [mbind outcome_bind]. rewrite Hself.
  destruct (self' subName (multiplier * quantity)) as [subResult|e]; simpl; [|done].
  fold (int_pairs subResult). rewrite merge_counts_typed. simpl.
  by apply IH.
Qed.

(** On a well-formed cookbook the resolver is its typed reading. *)
Lemma counts_typed limit cookbook name multiplier :
  registry_wf cookbook →
  get_base_ingredient_counts limit cookbook (PStr name) (PInt multiplier)
  = int_dict <$> counts_typed_of limit (registry_of cookbook) name multiplier.
Proof.
  intros Hwf. revert name multiplier.
  induction limit as [|limit IH]; intros name multiplier; [done|].
  cbn [get_base_ingredient_counts counts_typed_of].
  unfold get_base_ingredient_counts_body, registry_of. cbn [contains mbind outcome_bind].
  rewrite lookup_omap. destruct (cookbook !! name) as [entry|] eqn:Hentry; [|done].
  rewrite bool_decide_eq_true_2 by done. simpl negb. cbv iota.
  apply Hwf in Hentry as (_ & _ & Hshape). simpl.
  destruct entry as [| | | | | |d]; try done.
  unfold entry_view in *. cbv zeta in Hshape.
  cbn [get get_default mbind outcome_bind].
  destruct (eq_str (default PNone (dict_get d "type")) "ingredient").
  { destruct (as_int _); simpl in *; done. }
  destruct (eq_str (default PNone (dict_get d "type")) "recipe"); [|done].
  destruct (default PNone (dict_get d "requiredItems")) as [| | | | |elements|];
    try done.
  destruct (mapM item_view elements) as [its|] eqn:Hits; [|done]. simpl.
  change (@nil (string * pyval)) with (int_pairs []).
  rewrite (required_items_counts_typed _ (counts_typed_of limit (omap entry_view cookbook))
             _ _ its) by done.
  by destruct (items_typed _ _ _ _).
Qed.

(** ** Ordered dicts as finite maps *)

Lemma dict_get_lookup {A} (d : list (string * A)) k :
  dict_get d k = (list_to_map d : gmap string A) !! k.
Proof.
  induction d as [|[k' x] d IH]; simpl; [done|].
  destruct (String.eqb_spec k' k) as [->|Hne].
  - by rewrite lookup_insert_eq.
  - by rewrite lookup_insert_ne.
Qed.

Lemma list_to_map_dict_set {A} (d : list (string * A)) k x :
  (list_to_map (dict_set d k x) : gmap string A) = <[k := x]> (list_to_map d).
Proof.
  induction d as [|[k' y] d IH]; simpl; [done|].
  destruct (String.eqb_spec k' k) as [->|Hne]; simpl.
  - by rewrite insert_insert_eq.
  - rewrite IH. by apply insert_insert_ne.
Qed.

Lemma dict_set_keys {A} (d : list (string * A)) k x :
  (dict_set d k x).*1 = if bool_decide (k ∈ d.*1) then d.*1 else d.*1 ++ [k].
Proof.
  induction d as [|[k' y] d IH]; [done|]. cbn [dict_set].
  destruct (String.eqb_spec k' k) as [->|Hne]; csimpl.
  - rewrite bool_decide_eq_true_2 by set_solver. done.
  - rewrite IH. case_bool_decide as Hin.
    + rewrite bool_decide_eq_true_2 by set_solver. done.
    + rewrite bool_decide_eq_false_2 by set_solver. done.
Qed.

Lemma dict_set_NoDup {A} (d : list (string * A)) k x :
  NoDup d.*1 → NoDup (dict_set d k x).*1.
Proof.
  intros Hnd. rewrite dict_set_keys. case_bool_decide; [done|].
  apply NoDup_app. split; [done|]. split; [set_solver|]. apply NoDup_singleton.
Qed.

Lemma merge_typed_NoDup subResult result :
  NoDup result.*1 → NoDup (merge_typed subResult result).*1.
Proof.
  revert result. induction subResult as [|[k x] sub IH]; intros result Hnd;
    simpl; [done|].
  by apply IH, dict_set_NoDup.
Qed.

Lemma merge_typed_sum subResult result :
  NoDup subResult.*1 →
  (list_to_map (merge_typed subResult result) : gmap string Z)
  = merge_sum (list_to_map result) (list_to_map subResult).
Proof.
  revert result. induction subResult as [|[k x] sub IH]; intros result Hnd.
  { simpl. unfold merge_sum. by rewrite (right_id ∅ _). }
  simpl in *. apply NoDup_cons in Hnd as [Hk Hnd].
  rewrite IH by done. rewrite list_to_map_dict_set, dict_get_lookup.
  apply map_eq. intros i. unfold merge_sum. rewrite !lookup_union_with.
  destruct (decide (i = k)) as [->|Hne].
  - rewrite !lookup_insert_eq.
    rewrite (not_elem_of_list_to_map_1 sub k) by done.
    by destruct (list_to_map result !! k).
  - by rewrite !lookup_insert_ne.
Qed.

(** ** The resolver against the specification *)

Lemma int_pairs_inj d d' : int_pairs d = int_pairs d' → d = d'.
Proof.
  revert d'. induction d as [|[k x] d IH]; intros [|[k' x'] d']; try done.
  intros [= -> -> Hd]. f_equal. by apply IH.
Qed.

Lemma refines_return d result :
  refines (Return (int_dict d) : outcome pyval) result →
  NoDup d.*1 ∧ result = Some (inr (list_to_map d)).
Proof.
  inversion 1 as [d' Hnd Hd| |]; subst.
  apply int_pairs_inj in Hd as ->. done.
Qed.

Lemma items_typed_refines self spec multiplier requiredItems result :
  (∀ subName quantity,
     refines (int_dict <$> self subName quantity) (spec subName quantity)) →
  NoDup result.*1 →
  refines (int_dict <$> items_typed self multiplier requiredItems result)
    (resolve_items spec multiplier requiredItems (list_to_map result)).
Proof.
  intros Hself. revert result.
  induction requiredItems as [|[subName quantity] rest IH]; intros result Hnd.
  { by constructor. }
  simpl. specialize (Hself subName (multiplier * quantity)).
  destruct (self subName (multiplier * quantity)) as [subResult|e]; simpl in *.
  - apply refines_return in Hself as [Hsub ->].
    rewrite <- merge_typed_sum by done. by apply IH, merge_typed_NoDup.
  - inversion Hself; subst; constructor.
Qed.

Lemma counts_typed_refines limit registry name multiplier :
  refines (int_dict <$> counts_typed_of limit registry name multiplier)
    (resolve limit registry name multiplier).
Proof.
  revert name multiplier. induction limit as [|limit IH]; intros name multiplier.
  { constructor. }
  simpl. destruct (registry !! name) as [[cookTime|requiredItems]|].
  - replace ({[name := multiplier]} : gmap string Z)
      with (list_to_map [(name, multiplier)] : gmap string Z) by done.
    constructor. simpl. apply NoDup_singleton.
  - replace (∅ : gmap string Z) with (list_to_map [] : gmap string Z) by done.
    apply items_typed_refines; [done|constructor].
  - constructor.
Qed.

(** C1: on every registry that satisfies the data model, and for every bound
    on the depth, [get_base_ingredient_counts] gives what [resolve] gives:
    the failure for the first missing name, or the mapping in which an
    ingredient carries its multiplier and a recipe the sum of what its
    required items resolve to. *)
Theorem get_base_ingredient_counts_resolve cookbook limit name multiplier :
  registry_wf cookbook →
  refines (get_base_ingredient_counts limit cookbook (PStr name) (PInt multiplier))
    (resolve limit (registry_of cookbook) name multiplier).
Proof.
  intros Hwf. rewrite counts_typed by done. apply counts_typed_refines.
Qed.

(** ** Scaling *)

Lemma dict_get_scale k d n :
  dict_get (scale_counts k d) n = Z.mul k <$> dict_get d n.
Proof.
  induction d as [|[n' x] d IH]; simpl; [done|].
  by destruct (String.eqb n' n).
Qed.

Lemma dict_set_scale k d n x :
  dict_set (scale_counts k d) n (k * x) = scale_counts k (dict_set d n x).
Proof.
  induction d as [|[n' y] d IH]; simpl; [done|].
  destruct (String.eqb n' n); simpl; [done|]. by rewrite IH.
Qed.

Lemma merge_typed_scale k subResult result :
  merge_typed (scale_counts k subResult) (scale_counts k result)
  = scale_counts k (merge_typed subResult result).
Proof.
  revert result. induction subResult as [|[n x] sub IH]; intros result; simpl;
    [done|].
  rewrite dict_get_scale.
  replace (default 0 (Z.mul k <$> dict_get result n) + k * x)
    with (k * (default 0 (dict_get result n) + x))
    by (destruct (dict_get result n); simpl; lia).
  rewrite dict_set_scale. apply IH.
Qed.

Lemma items_typed_scale k (self : string → Z → outcome (list (string * Z)))
    multiplier requiredItems result d :
  (∀ subName quantity sub,
     self subName quantity = Return sub →
     self subName (k * quantity) = Return (scale_counts k sub)) →
  items_typed self multiplier requiredItems result = Return d →
  items_typed self (k * multiplier) requiredItems (scale_counts k result)
  = Return (scale_counts k d).
Proof.
  intros Hself. revert result.
  induction requiredItems as [|[subName quantity] rest IH]; intros result; simpl.
  { by intros [= <-]. }
  destruct (self subName (multiplier * quantity)) as [sub|e] eqn:Hsub; simpl;
    [|done].
  apply Hself in Hsub. rewrite Z.mul_assoc in Hsub. rewrite Hsub. simpl.
  rewrite merge_typed_scale. apply IH.
Qed.

Lemma counts_typed_of_scale k limit registry name multiplier d :
  counts_typed_of limit registry name multiplier = (Return d : outcome _) →
  counts_typed_of limit registry name (k * multiplier)
  = (Return (scale_counts k d) : outcome _).
Proof.
  revert name multiplier d.
  induction limit as [|limit IH]; intros name multiplier d; simpl; [done|].
  destruct (registry !! name) as [[cookTime|requiredItems]|]; [| |done].
  - by intros [= <-].
  - intros Hd. change (@nil (string * Z)) with (scale_counts k []).
    by apply items_typed_scale.
Qed.

Lemma int_dict_fmap_return (o : outcome (list (string * Z))) v :
  int_dict <$> o = Return v → ∃ d, o = Return d ∧ v = int_dict d.
Proof. destruct o as [d|e]; [|done]. intros [= <-]. eauto. Qed.

(** Resolution is linear in the multiplier. *)
Lemma counts_scale cookbook limit name v :
  registry_wf cookbook →
  get_base_ingredient_counts limit cookbook (PStr name) (PInt 1) = Return v →
  ∃ d, v = int_dict d ∧
    ∀ k, get_base_ingredient_counts limit cookbook (PStr name) (PInt k)
         = Return (int_dict (scale_counts k d)).
Proof.
  intros Hwf. rewrite counts_typed by done.
  intros (d & Hd & ->)%int_dict_fmap_return. exists d. split; [done|].
  intros k. rewrite counts_typed by done.
  apply (counts_typed_of_scale k) in Hd. rewrite Z.mul_1_r in Hd.
  by rewrite Hd.
Qed.

(** ** Depth of the recursion *)

Implicit Types (registry : gmap string Entry).

Lemma items_typed_raise (self : string → Z → outcome (list (string * Z)))
    multiplier requiredItems result e :
  items_typed self multiplier requiredItems result = Raise e →
  ∃ subName quantity, subName ∈ requiredItems.*1 ∧ self subName quantity = Raise e.
Proof.
  revert result.
  induction requiredItems as [|[subName quantity] rest IH]; intros result; simpl;
    [done|].
  destruct (self subName (multiplier * quantity)) as [sub|e'] eqn:Hsub; simpl.
  - intros (s & q & Hin & Hs)%IH. exists s, q. split; [set_solver|done].
  - intros [= ->]. exists subName, (multiplier * quantity). split; [set_solver|done].
Qed.

(** The resolver raises nothing but its own exception, for an absent name
    that can be reached, and [RecursionError]. *)
Lemma counts_typed_of_raise limit registry name multiplier e :
  counts_typed_of limit registry name multiplier = Raise e →
  e = RecursionError ∨
  ∃ missing, e = CannotFind (PStr missing) ∧
             rtc (requires registry) name missing ∧ registry !! missing = None.
Proof.
  revert name multiplier. induction limit as [|limit IH]; intros name multiplier;
    simpl.
  { intros [= <-]. by left. }
  destruct (registry !! name) as [[cookTime|requiredItems]|] eqn:Hname; [done| |].
  - intros (subName & quantity & Hin & [->|(missing & -> & Hreach & Hnone)]%IH)
      %items_typed_raise; [by left|].
    right. exists missing. split; [done|]. split; [|done].
    eapply rtc_l; [|done]. by exists requiredItems.
  - intros [= <-]. right. exists name. done.
Qed.

(** A call that runs out of stack has gone [limit] references deep. *)
Lemma counts_typed_of_depth limit registry name multiplier :
  counts_typed_of limit registry name multiplier = (Raise RecursionError : outcome _) →
  ∃ b, nsteps (requires registry) limit name b.
Proof.
  revert name multiplier. induction limit as [|limit IH]; intros name multiplier;
    simpl.
  { intros _. exists name. constructor. }
  destruct (registry !! name) as [[cookTime|requiredItems]|] eqn:Hname; [done| |done].
  intros (subName & quantity & Hin & [b Hb]%IH)%items_typed_raise.
  exists b. eapply nsteps_l; [|done]. by exists requiredItems.
Qed.

(** In an acyclic registry no chain of references is longer than the
    registry: the names already passed, [visited], are all different from
    the ones to come. *)
Lemma acyclic_nsteps_bound registry (visited : gset string) n a b :
  acyclic registry →
  (∀ x, x ∈ visited → tc (requires registry) x a) →
  nsteps (requires registry) n a b →
  (n + size visited ≤ size (dom registry))%nat.
Proof.
  intros Hacyclic. revert visited a.
  induction n as [|n IH]; intros visited a Hvisited Hsteps.
  - apply subseteq_size. intros x Hv%Hvisited.
    apply tc_nsteps in Hv as (k & Hk & Hv).
    destruct Hv as [|k ? c ? (its & Hits & _) _]; [lia|].
    apply elem_of_dom. eauto.
  - inversion Hsteps as [|? ? c ? Hstep Hrest]; subst.
    assert (a ∉ visited) as Hfresh.
    { intros Ha%Hvisited. by apply (Hacyclic a). }
    specialize (IH ({[a]} ∪ visited) c).
    rewrite size_union, size_singleton in IH by set_solver.
    assert (S (n + size visited) ≤ size (dom registry))%nat; [|lia].
    replace (S (n + size visited)) with (n + (1 + size visited))%nat by lia.
    apply IH; [|done].
    intros x [->%elem_of_singleton|Hv]%elem_of_union.
    + by apply tc_once.
    + eapply tc_r; [by apply Hvisited|done].
Qed.

Lemma acyclic_depth registry limit name multiplier :
  acyclic registry → (size registry < limit)%nat →
  counts_typed_of limit registry name multiplier ≠ (Raise RecursionError : outcome _).
Proof.
  intros Hacyclic Hlimit [b Hb]%counts_typed_of_depth.
  apply (acyclic_nsteps_bound _ ∅) in Hb; [|done|set_solver].
  rewrite size_dom in Hb. lia.
Qed.

(** More stack does not change a result that did not need it. *)
Lemma items_typed_more (self self' : string → Z → outcome (list (string * Z)))
    multiplier requiredItems result :
  (∀ subName quantity,
     self subName quantity ≠ Raise RecursionError →
     self' subName quantity = self subName quantity) →
  items_typed self multiplier requiredItems result ≠ Raise RecursionError →
  items_typed self' multiplier requiredItems result
  = items_typed self multiplier requiredItems result.
Proof.
  intros Hself. revert result.
  induction requiredItems as [|[subName quantity] rest IH]; intros result; simpl;
    [done|].
  specialize (Hself subName (multiplier * quantity)).
  destruct (self subName (multiplier * quantity)) as [sub|e]; simpl.
  - rewrite Hself by done. simpl. apply IH.
  - intros He. rewrite Hself by done. done.
Qed.

Lemma counts_typed_of_unfold limit registry name multiplier :
  counts_typed_of (S limit) registry name multiplier
  = match registry !! name with
    | None => Raise (CannotFind (PStr name))
    | Some (Ingredient _) => Return [(name, multiplier)]
    | Some (Recipe requiredItems) =>
        items_typed (counts_typed_of limit registry) multiplier requiredItems []
    end.
Proof. done. Qed.

Lemma counts_typed_of_S limit registry name multiplier :
  counts_typed_of limit registry name multiplier ≠ Raise RecursionError →
  counts_typed_of (S limit) registry name multiplier
  = counts_typed_of limit registry name multiplier.
Proof.
  revert name multiplier. induction limit as [|limit IH]; intros name multiplier.
  { done. }
  rewrite (counts_typed_of_unfold (S limit)), (counts_typed_of_unfold limit).
  destruct (registry !! name) as [[cookTime|requiredItems]|]; [done| |done].
  by apply items_typed_more.
Qed.

Lemma counts_typed_of_ge limit limit' registry name multiplier :
  counts_typed_of limit registry name multiplier ≠ Raise RecursionError →
  (limit ≤ limit')%nat →
  counts_typed_of limit' registry name multiplier
  = counts_typed_of limit registry name multiplier.
Proof.
  intros Hdone. induction 1 as [|limit' Hle IH]; [done|].
  rewrite counts_typed_of_S; [done|]. by rewrite IH.
Qed.

(** ** Cycles *)

(** Chains of every length start where a chain leads to a cycle. *)
Lemma lasso_nsteps {A} (R : relation A) x a n :
  rtc R x a → tc R a a → ∃ b, nsteps R n x b.
Proof.
  intros [i Hi]%rtc_nsteps (k & Hk & Hcycle)%tc_nsteps.
  assert (∀ j, nsteps R (j * k) a a) as Hrounds.
  { induction j as [|j IH]; [constructor|]. simpl. by eapply nsteps_trans. }
  pose proof (nsteps_trans _ _ _ _ _ Hi (Hrounds n)) as Hlong.
  replace (i + n * k)%nat with (n + (i + n * k - n))%nat in Hlong by nia.
  apply nsteps_add_inv in Hlong as (b & Hb & _). eauto.
Qed.

(** From a name that reaches a cycle there are chains of references of
    every length. *)
Lemma reaches_cycle_nsteps registry name n :
  reaches_cycle registry name → ∃ b, nsteps (requires registry) n name b.
Proof. intros (a & Hreach & Hcycle). by eapply lasso_nsteps. Qed.

Lemma int_dict_fmap_raise (o : outcome (list (string * Z))) e :
  int_dict <$> o = Raise e ↔ o = Raise e.
Proof. destruct o; split; (done || by intros [= ->]). Qed.

(** On a well-formed cookbook, more stack does not change an outcome that
    is not [RecursionError]. *)
Lemma get_base_ingredient_counts_ge cookbook limit limit' name multiplier :
  registry_wf cookbook →
  get_base_ingredient_counts limit cookbook (PStr name) (PInt multiplier)
    ≠ Raise RecursionError →
  (limit ≤ limit')%nat →
  get_base_ingredient_counts limit' cookbook (PStr name) (PInt multiplier)
  = get_base_ingredient_counts limit cookbook (PStr name) (PInt multiplier).
Proof.
  intros Hwf. rewrite !counts_typed by done. intros Hdone Hle.
  rewrite (counts_typed_of_ge limit limit'); [done| |done].
  by rewrite int_dict_fmap_raise in Hdone.
Qed.

(** ** The depth-first traversal *)

(** A chain that leaves from more names than there are passes one of them
    twice. *)
Lemma nsteps_lasso (R : relation string) (sources : gset string) n x y :
  (∀ a b, R a b → a ∈ sources) →
  nsteps R n x y → (size sources < n)%nat →
  ∃ a, rtc R x a ∧ tc R a a.
Proof.
  intros Hsources Hsteps Hlong.
  assert ((∃ a, rtc R x a ∧ tc R a a) ∨
          ∃ passed : list string,
            length passed = n ∧ NoDup passed ∧
            ∀ z, z ∈ passed → z ∈ sources ∧ rtc R x z) as [Hlasso|Hpassed].
  { clear Hlong. induction Hsteps as [x|n x x' y Hstep _ IH].
    { right. exists []. split; [done|]. split; [constructor|].
      by intros z ?%elem_of_nil. }
    destruct IH as [(a & Hreach & Hcycle)|(passed & Hlength & Hnodup & Hpassed)].
    { left. exists a. split; [by eapply rtc_l|done]. }
    destruct (decide (x ∈ passed)) as [Hagain|Hfresh].
    - left. exists x. split; [done|].
      apply Hpassed in Hagain as [_ Hback].
      eapply tc_rtc_r; [by apply tc_once|done].
    - right. exists (x :: passed). split; [by simpl; f_equal|].
      split; [by constructor|].
      intros z [->|[Hz Hreach]%Hpassed]%elem_of_cons.
      + split; [by eapply Hsources|done].
      + split; [done|]. by eapply rtc_l. }
  { done. }
  destruct Hpassed as (passed & Hlength & Hnodup & Hpassed). exfalso.
  assert (passed ⊆+ elements sources) as Hsub%submseteq_length.
  { apply NoDup_submseteq; [done|]. intros z [Hz _]%Hpassed.
    by apply elem_of_elements. }
  unfold size, set_size in Hlong. simpl in Hlong. lia.
Qed.

(** Whether the resolver raises, and what, does not depend on the
    multiplier. *)
Lemma items_typed_raise_any (self : string → Z → outcome (list (string * Z)))
    multiplier multiplier' requiredItems result result' e :
  (∀ name quantity quantity' e',
     self name quantity = Raise e' → self name quantity' = Raise e') →
  items_typed self multiplier requiredItems result = Raise e →
  items_typed self multiplier' requiredItems result' = Raise e.
Proof.
  intros Hself. revert result result'.
  induction requiredItems as [|[name quantity] rest IH]; intros result result';
    simpl; [done|].
  destruct (self name (multiplier * quantity)) as [sub|e1] eqn:Hsub; simpl.
  - destruct (self name (multiplier' * quantity)) as [sub'|e2] eqn:Hsub'; simpl.
    + apply IH.
    + apply (Hself _ _ (multiplier * quantity)) in Hsub'. congruence.
  - intros [= ->]. by rewrite (Hself _ _ (multiplier' * quantity) _ Hsub).
Qed.

Lemma counts_typed_of_raise_any limit registry name multiplier multiplier' e :
  counts_typed_of limit registry name multiplier = Raise e →
  counts_typed_of limit registry name multiplier' = Raise e.
Proof.
  revert name multiplier multiplier' e.
  induction limit as [|limit IH]; intros name multiplier multiplier' e; [done|].
  rewrite !counts_typed_of_unfold.
  destruct (registry !! name) as [[cookTime|requiredItems]|]; [done| |done].
  by apply items_typed_raise_any.
Qed.

Lemma resolves_typed cookbook limit name multiplier d :
  registry_wf cookbook →
  counts_typed_of limit (registry_of cookbook) name multiplier = Return d →
  resolves cookbook name.
Proof.
  intros Hwf Hd. exists limit. rewrite counts_typed by done.
  destruct (counts_typed_of limit (registry_of cookbook) name 1) as [d'|e]
    eqn:Hone; [by eexists|].
  apply (counts_typed_of_raise_any _ _ _ _ multiplier) in Hone. congruence.
Qed.

(** An item that resolves with some stack returns or runs out of stack,
    whatever the stack and the multiplier are: it never fails for a missing
    name. *)
Lemma resolves_outcome cookbook name limit multiplier :
  registry_wf cookbook → resolves cookbook name →
  (∃ d, counts_typed_of limit (registry_of cookbook) name multiplier = Return d)
  ∨ counts_typed_of limit (registry_of cookbook) name multiplier
    = Raise RecursionError.
Proof.
  intros Hwf (enough & v & Hv). rewrite counts_typed in Hv by done.
  apply int_dict_fmap_return in Hv as (d & Hd & _).
  apply (counts_typed_of_scale multiplier) in Hd. rewrite Z.mul_1_r in Hd.
  destruct (counts_typed_of limit (registry_of cookbook) name multiplier)
    as [d'|e] eqn:Hcall; [eauto|].
  pose proof Hcall as Hraise.
  apply counts_typed_of_raise in Hraise as [->|(missing & -> & _)]; [by right|].
  exfalso.
  assert (counts_typed_of (limit `max` enough) (registry_of cookbook) name
            multiplier = Raise (CannotFind (PStr missing))) as Hleft.
  { rewrite <- Hcall. apply counts_typed_of_ge; [by rewrite Hcall|lia]. }
  assert (counts_typed_of (limit `max` enough) (registry_of cookbook) name
            multiplier = Return (scale_counts multiplier d)) as Hright.
  { rewrite <- Hd. apply counts_typed_of_ge; [by rewrite Hd|lia]. }
  congruence.
Qed.

(** The loop over the required items stops at the first item whose call
    raises. *)
Lemma items_typed_enters (self : string → Z → outcome (list (string * Z)))
    multiplier before subName quantity after result :
  (∀ name q, name ∈ before.*1 →
     (∃ d, self name q = Return d) ∨ self name q = Raise RecursionError) →
  (∀ q, self subName q = Raise RecursionError) →
  items_typed self multiplier (before ++ (subName, quantity) :: after) result
  = Raise RecursionError.
Proof.
  intros Hbefore Hdeep. revert result Hbefore.
  induction before as [|[name q] before IH]; intros result Hbefore; simpl.
  { by rewrite Hdeep. }
  destruct (Hbefore name (multiplier * q)) as [[d ->]| ->]; [set_solver| |done].
  simpl. apply IH. intros ???. apply Hbefore. set_solver.
Qed.

Lemma items_typed_first_raise (self : string → Z → outcome (list (string * Z)))
    multiplier requiredItems result e :
  items_typed self multiplier requiredItems result = Raise e →
  ∃ before subName quantity after,
    requiredItems = before ++ (subName, quantity) :: after ∧
    (∀ name, name ∈ before.*1 → ∃ q d, self name q = Return d) ∧
    self subName (multiplier * quantity) = Raise e.
Proof.
  revert result.
  induction requiredItems as [|[name q] rest IH]; intros result; simpl; [done|].
  destruct (self name (multiplier * q)) as [sub|e'] eqn:Hsub; simpl.
  - intros (before & subName & quantity & after & -> & Hbefore & Hraise)%IH.
    exists ((name, q) :: before), subName, quantity, after.
    split; [done|]. split; [|done].
    intros x [->|Hx]%elem_of_cons; eauto.
  - intros [= ->]. exists [], name, q, rest. split; [done|]. split; [|done].
    by intros x ?%elem_of_nil.
Qed.

(** A chain of [limit] steps of the traversal uses up a stack of [limit]
    frames, and a stack of [limit] frames is used up by such a chain only. *)
Lemma counts_typed_of_enters limit cookbook name multiplier b :
  registry_wf cookbook →
  nsteps (enters cookbook) limit name b →
  counts_typed_of limit (registry_of cookbook) name multiplier
  = Raise RecursionError.
Proof.
  intros Hwf. revert name multiplier.
  induction limit as [|limit IH]; intros name multiplier Hsteps; [done|].
  inversion Hsteps
    as [|? ? subName ? (before & quantity & after & Hitems & Hbefore) Hrest];
    subst.
  rewrite counts_typed_of_unfold, Hitems. apply items_typed_enters.
  - intros x q Hx. by apply resolves_outcome, Hbefore.
  - intros q. by apply IH.
Qed.

Lemma counts_typed_of_enters_depth limit cookbook name multiplier :
  registry_wf cookbook →
  counts_typed_of limit (registry_of cookbook) name multiplier
  = Raise RecursionError →
  ∃ b, nsteps (enters cookbook) limit name b.
Proof.
  intros Hwf. revert name multiplier.
  induction limit as [|limit IH]; intros name multiplier.
  { intros _. exists name. constructor. }
  rewrite counts_typed_of_unfold.
  destruct (registry_of cookbook !! name) as [[cookTime|requiredItems]|]
    eqn:Hname; [done| |done].
  intros (before & subName & quantity & after & -> & Hbefore & [b Hb]%IH)
    %items_typed_first_raise.
  exists b. eapply nsteps_l; [|done].
  exists before, quantity, after. split; [done|].
  intros x (q & d & Hd)%Hbefore. by eapply resolves_typed.
Qed.

Lemma enters_requires cookbook a b :
  enters cookbook a b → requires (registry_of cookbook) a b.
Proof.
  intros (before & quantity & after & Hitems & _).
  eexists. split; [done|]. rewrite fmap_app, fmap_cons. set_solver.
Qed.

(** What returns has returned for every required item, one frame deeper. *)
Lemma items_typed_return (self : string → Z → outcome (list (string * Z)))
    multiplier requiredItems result d subName :
  items_typed self multiplier requiredItems result = Return d →
  subName ∈ requiredItems.*1 →
  ∃ quantity sub, self subName quantity = Return sub.
Proof.
  revert result.
  induction requiredItems as [|[name q] rest IH]; intros result; simpl.
  { by intros _ ?%elem_of_nil. }
  destruct (self name (multiplier * q)) as [sub|e] eqn:Hsub; simpl; [|done].
  intros Hrest [->|Hin]%elem_of_cons; [eauto|]. by eapply IH.
Qed.

Lemma counts_typed_of_return_depth limit registry name multiplier d n b :
  counts_typed_of limit registry name multiplier = Return d →
  nsteps (requires registry) n name b → (n < limit)%nat.
Proof.
  intros Hd Hsteps. revert limit multiplier d Hd.
  induction Hsteps as [name|n name subName b (its & Hits & Hin) _ IH];
    intros [|limit] multiplier d; try done.
  { intros _. lia. }
  rewrite counts_typed_of_unfold, Hits.
  intros (quantity & sub & Hsub)%(items_typed_return _ _ _ _ _ subName); [|done].
  apply IH in Hsub. lia.
Qed.

(** With a cycle in reach the resolver never returns. *)
Lemma reaches_cycle_no_return limit registry name multiplier d :
  reaches_cycle registry name →
  counts_typed_of limit registry name multiplier ≠ Return d.
Proof.
  intros Hcycle Hd. destruct (reaches_cycle_nsteps _ _ limit Hcycle) as [b Hb].
  apply (counts_typed_of_return_depth _ _ _ _ _ _ _ Hd) in Hb. lia.
Qed.

Lemma registry_of_None cookbook name :
  registry_wf cookbook → registry_of cookbook !! name = None →
  cookbook !! name = None.
Proof.
  intros Hwf. unfold registry_of. rewrite lookup_omap.
  destruct (cookbook !! name) as [entry|] eqn:Hentry; [|done]. simpl.
  intros Hview. apply Hwf in Hentry as (_ & _ & Hshape).
  by rewrite Hview in Hshape.
Qed.

(** C8, as amended: on a registry whose reference graph is acyclic the
    resolver ends for every name and multiplier, with one and the same
    outcome for every stack that has more frames than the registry has
    entries.  The recursion does not end, that is, the call ends in
    [RecursionError] whatever the limit is, exactly when the depth-first
    traversal from the queried name enters a cycle; the traversal takes the
    required items of a recipe in their listed order and gets to an item
    only when the items listed before it resolve.  With a cycle in reach the
    resolver never returns a mapping: it ends in [RecursionError], or in the
    exception for an absent name that can be reached. *)
Theorem resolver_termination cookbook name multiplier :
  registry_wf cookbook →
  (acyclic (registry_of cookbook) →
   ∃ result, result ≠ Raise RecursionError ∧
     ∀ limit, (size (registry_of cookbook) < limit)%nat →
       get_base_ingredient_counts limit cookbook (PStr name) (PInt multiplier)
       = result) ∧
  ((∀ limit,
      get_base_ingredient_counts limit cookbook (PStr name) (PInt multiplier)
      = Raise RecursionError)
   ↔ ∃ a, rtc (enters cookbook) name a ∧ tc (enters cookbook) a a) ∧
  (reaches_cycle (registry_of cookbook) name →
   ∀ limit,
     get_base_ingredient_counts limit cookbook (PStr name) (PInt multiplier)
     = Raise RecursionError ∨
     ∃ missing,
       get_base_ingredient_counts limit cookbook (PStr name) (PInt multiplier)
       = Raise (CannotFind (PStr missing)) ∧
       rtc (requires (registry_of cookbook)) name missing ∧
       cookbook !! missing = None).
Proof.
  intros Hwf. split; [|split; [split|]].
  - intros Hacyclic.
    set (least := S (size (registry_of cookbook))).
    assert (counts_typed_of least (registry_of cookbook) name multiplier
            ≠ Raise RecursionError) as Hdone.
    { apply acyclic_depth; [done|]. unfold least. lia. }
    exists (get_base_ingredient_counts least cookbook (PStr name) (PInt multiplier)).
    split.
    + by rewrite counts_typed, int_dict_fmap_raise.
    + intros limit Hlimit. apply get_base_ingredient_counts_ge; [done| |].
      * by rewrite counts_typed, int_dict_fmap_raise.
      * unfold least. lia.
  - intros Hdeep.
    specialize (Hdeep (S (size (dom (registry_of cookbook))))).
    rewrite counts_typed, int_dict_fmap_raise in Hdeep by done.
    apply counts_typed_of_enters_depth in Hdeep as [b Hb]; [|done].
    apply (nsteps_lasso _ (dom (registry_of cookbook))) in Hb; [done| |lia].
    intros a c (its & Hits & _)%enters_requires. apply elem_of_dom. eauto.
  - intros (a & Hreach & Hcycle) limit. rewrite counts_typed by done.
    destruct (lasso_nsteps (enters cookbook) name a limit Hreach Hcycle)
      as [b Hb].
    by rewrite (counts_typed_of_enters limit cookbook name multiplier b).
  - intros Hcycle limit. rewrite counts_typed by done.
    destruct (counts_typed_of limit (registry_of cookbook) name multiplier)
      as [d|e] eqn:Hcall.
    { by apply reaches_cycle_no_return in Hcall. }
    apply counts_typed_of_raise in Hcall
      as [->|(missing & -> & Hreach & Hnone)]; [by left|].
    right. exists missing. split; [done|]. split; [done|].
    by apply registry_of_None.
Qed.

(** ** What the resolver returns *)

Lemma merge_typed_keys subResult result n :
  n ∈ (merge_typed subResult result).*1 → n ∈ result.*1 ∨ n ∈ subResult.*1.
Proof.
  revert result. induction subResult as [|[k x] sub IH]; intros result; simpl;
    [by left|].
  intros [Hn|Hn]%IH; [|set_solver].
  rewrite dict_set_keys in Hn. case_bool_decide; set_solver.
Qed.

Lemma items_typed_keys (self : string → Z → outcome (list (string * Z)))
    (P : string → Prop) multiplier requiredItems result d :
  (∀ subName quantity sub n,
     self subName quantity = Return sub → n ∈ sub.*1 → P n) →
  (∀ n, n ∈ result.*1 → P n) →
  items_typed self multiplier requiredItems result = Return d →
  ∀ n, n ∈ d.*1 → P n.
Proof.
  intros Hself. revert result.
  induction requiredItems as [|[subName quantity] rest IH]; intros result Hresult;
    simpl.
  { by intros [= <-]. }
  destruct (self subName (multiplier * quantity)) as [sub|e] eqn:Hsub; simpl;
    [|done].
  apply IH. intros n [Hn|Hn]%merge_typed_keys; [by apply Hresult|].
  by eapply Hself.
Qed.

(** Every key of a returned mapping is the name of an ingredient. *)
Lemma counts_typed_of_keys limit registry name multiplier d n :
  counts_typed_of limit registry name multiplier = Return d →
  n ∈ d.*1 → ∃ cookTime, registry !! n = Some (Ingredient cookTime).
Proof.
  revert name multiplier d n.
  induction limit as [|limit IH]; intros name multiplier d n; simpl; [done|].
  destruct (registry !! name) as [[cookTime|requiredItems]|] eqn:Hname; [| |done].
  - intros [= <-] ->%list_elem_of_singleton. eauto.
  - intros Hd. revert n.
    apply (items_typed_keys (counts_typed_of limit registry)
             (λ n, ∃ c, registry !! n = Some (Ingredient c))
             multiplier requiredItems []); [|by intros ? ?%elem_of_nil|done].
    intros subName quantity sub n. apply IH.
Qed.

(** The stored payload behind an ingredient of the typed registry. *)
Lemma registry_of_ingredient cookbook name cookTime :
  registry_wf cookbook →
  registry_of cookbook !! name = Some (Ingredient cookTime) →
  ∃ entry value,
    cookbook !! name = Some entry ∧
    get entry "type" = Return (PStr "ingredient") ∧
    get_default entry "cookTime" (PInt 0) = Return value ∧
    isinstance_int value = true ∧ as_int value = Some cookTime ∧ 0 ≤ cookTime.
Proof.
  intros Hwf. unfold registry_of. rewrite lookup_omap.
  destruct (cookbook !! name) as [entry|] eqn:Hentry; [|done]. simpl.
  intros Hview. apply Hwf in Hentry as (_ & _ & Hshape). rewrite Hview in Hshape.
  destruct entry as [| | | | | |d]; try done. unfold entry_view in Hview.
  cbv zeta in Hview.
  destruct (default PNone (dict_get d "type")) as [| | | |type| |] eqn:Htype;
    try done.
  simpl in Hview. destruct (String.eqb_spec type "ingredient") as [->|?].
  2:{ destruct (String.eqb type "recipe"); [|done].
      destruct (default PNone (dict_get d "requiredItems"))
        as [| | | | |elements|]; try done.
      by destruct (mapM item_view elements). }
  exists (PDict d), (default PNone (dict_get d "cookTime")).
  destruct (as_int (default PNone (dict_get d "cookTime"))) as [c|] eqn:Hc;
    [|done].
  injection Hview as ->. simpl. rewrite Htype.
  destruct (dict_get d "cookTime") as [value|]; [|done]. simpl in *.
  repeat split; try done. by destruct value.
Qed.

(** ** [summary] *)

Lemma summary_loop_typed cookbook d total ingredientsList :
  registry_wf cookbook →
  (∀ n, n ∈ d.*1 → ∃ c, registry_of cookbook !! n = Some (Ingredient c)) →
  ∃ total' ingredientsList',
    summary_loop cookbook (int_pairs d) (PInt total) ingredientsList
    = Return (PInt total', ingredientsList').
Proof.
  intros Hwf. revert total ingredientsList.
  induction d as [|[n q] d IH]; intros total ingredientsList Hkeys.
  { simpl. eauto. }
  destruct (Hkeys n) as [c Hc]; [set_solver|].
  apply registry_of_ingredient in Hc
    as (entry & value & Hentry & _ & Hvalue & _ & Hint & _); [|done].
  cbn [int_pairs fmap list_fmap prod_map fst snd id summary_loop].
  rewrite Hentry, Hvalue. cbn [mbind outcome_bind].
  unfold mul. cbn [as_int]. rewrite Hint. cbn [mbind outcome_bind add as_int].
  apply IH. intros ??. apply Hkeys. set_solver.
Qed.

(** What [summary] answers for a name that is in a well-formed cookbook. *)
Lemma summary_present cookbook limit name entry :
  registry_wf cookbook →
  cookbook !! name = Some entry →
  ∃ type, get entry "type" = Return type ∧
    (eq_str type "recipe" = false →
     summary limit cookbook (Some name) = Return NotARecipe) ∧
    (eq_str type "recipe" = true →
     (∀ e, get_base_ingredient_counts limit cookbook (PStr name) (PInt 1) = Raise e →
           summary limit cookbook (Some name) = Return IngredientResolutionFailed) ∧
     (∀ v, get_base_ingredient_counts limit cookbook (PStr name) (PInt 1) = Return v →
           ∃ body, summary limit cookbook (Some name) = Return (Json body 200))).
Proof.
  intros Hwf Hentry. pose proof (Hwf _ _ Hentry) as (Hname & _ & Hshape).
  destruct entry as [| | | | | |d]; try done.
  exists (default PNone (dict_get d "type")). split; [done|].
  unfold summary. rewrite Hentry.
  assert (negb (truthy (PStr name : pyval)) = false) as ->.
  { simpl. destruct (String.eqb_spec name ""); done. }
  cbn [get get_default mbind outcome_bind].
  split; [by intros ->|]. intros ->. simpl negb. cbv iota. split.
  - by intros e ->.
  - intros v Hv. rewrite Hv. revert Hv. rewrite counts_typed by done.
    intros (b & Hb & ->)%int_dict_fmap_return. simpl.
    destruct (summary_loop_typed cookbook b 0 []) as (total & l & ->); [done| |].
    + intros n Hn. by eapply counts_typed_of_keys.
    + simpl. eauto.
Qed.





(** Every cookbook the program can reach is well formed: an entry is
    stored under its own, non-empty name, its type is "ingredient" or
    "recipe", an ingredient carries a [cookTime] that is an [int] instance
    (which in Python includes [True] and [False]) and is not negative, a
    recipe a list of objects with non-empty string names, all different, and
    [int] quantities.  [create_entry] keeps what is stored, so the resolver
    never falls through its dispatch on the type (it never returns [None]),
    and every ingredient of a mapping it returns has such a [cookTime] for
    [summary] to read. *)
Theorem registry_invariant cookbook :
  reachable cookbook →
  registry_wf cookbook ∧
  (∀ name entry,
     cookbook !! name = Some entry →
     (get entry "type" = Return (PStr "ingredient") ∧
      ∃ cookTime c, get entry "cookTime" = Return cookTime ∧
        isinstance_int cookTime = true ∧ as_int cookTime = Some c ∧ 0 ≤ c) ∨
     (get entry "type" = Return (PStr "recipe") ∧
      ∃ elements requiredItems,
        get entry "requiredItems" = Return (PList elements) ∧
        mapM item_view elements = Some requiredItems ∧
        NoDup requiredItems.*1)) ∧
  (∀ payload name entry,
     cookbook !! name = Some entry →
     (create_entry cookbook payload).2 !! name = Some entry) ∧
  (∀ payload, registry_wf (create_entry cookbook payload).2) ∧
  (∀ limit name multiplier,
     get_base_ingredient_counts limit cookbook (PStr name) (PInt multiplier)
     ≠ Return PNone) ∧
  (∀ limit name multiplier v,
     get_base_ingredient_counts limit cookbook (PStr name) (PInt multiplier)
     = Return v →
     ∃ d, v = int_dict d ∧
       ∀ n, n ∈ d.*1 →
         ∃ ingredient cookTime c,
           cookbook !! n = Some ingredient ∧
           get_default ingredient "cookTime" (PInt 0) = Return cookTime ∧
           isinstance_int cookTime = true ∧ as_int cookTime = Some c ∧ 0 ≤ c).
Proof.
  intros Hwf%reachable_wf. split; [done|]. split; [|split; [|split; [|split]]].
  - intros name entry (_ & _ & Hshape)%Hwf.
    destruct entry as [| | | | | |d]; try done. unfold entry_view in Hshape.
    cbv zeta in Hshape. cbn [get get_default].
    destruct (default PNone (dict_get d "type")) as [| | | |t| |];
      simpl in Hshape; try done.
    destruct (String.eqb_spec t "ingredient") as [Ht|_]; [subst t|].
    + left. split; [done|].
      destruct (default PNone (dict_get d "cookTime")) as [|b|c| | | |] eqn:Hc;
        try done; simpl in Hshape; eauto 10.
    + destruct (String.eqb_spec t "recipe") as [Ht|_]; [subst t|done]. right.
      split; [done|].
      destruct (default PNone (dict_get d "requiredItems"))
        as [| | | | |elements|]; try done.
      destruct (mapM item_view elements) as [its|] eqn:Hits; [|done]. eauto.
  - intros payload name entry. apply create_entry_preserves.
  - intros payload. by apply create_entry_wf.
  - intros limit name multiplier. rewrite counts_typed by done.
    by destruct (counts_typed_of _ _ _ _).
  - intros limit name multiplier v. rewrite counts_typed by done.
    intros (d & Hd & ->)%int_dict_fmap_return. exists d. split; [done|].
    intros n Hn. eapply counts_typed_of_keys in Hn as [c Hc]; [|done].
    apply registry_of_ingredient in Hc
      as (entry & value & ? & _ & ? & ? & ? & ?); [|done].
    exists entry, value, c. done.
Qed.

End Properties.

(** * The registries of the examples *)

Lemma posted_reachable entries : reachable (posted entries).
Proof.
  unfold posted. generalize (∅ : gmap string (pyval Empty_set)) (@reachable_empty Empty_set _).
  induction entries as [|entry entries IH]; intros cookbook Hreach; [done|].
  simpl. apply IH. by constructor.
Qed.

Lemma posted_wf entries : registry_wf (posted entries).
Proof. apply reachable_wf, posted_reachable. Qed.

Lemma pasta_book_registry :
  registry_of pasta_book
  = {[ "egg" := Ingredient 10; "flour" := Ingredient 0;
       "dough" := Recipe [("flour", 2)];
       "pasta" := Recipe [("dough", 1); ("egg", 3)] ]}.
Proof. by vm_compute. Qed.

(** C2: on the registry of section 8, resolving "pasta" with multiplier 1
    gives flour 2 and egg 3, and its summary has the name "pasta", the cook
    time 30 and the two ingredients, flour 2 and egg 3, whatever their
    order, for every stack of three frames or more. *)
Theorem pasta_summary :
  registry_of pasta_book
  = {[ "egg" := Ingredient 10; "flour" := Ingredient 0;
       "dough" := Recipe [("flour", 2)];
       "pasta" := Recipe [("dough", 1); ("egg", 3)] ]} ∧
  ∀ limit : nat,
    get_base_ingredient_counts (3 + limit) pasta_book (PStr "pasta") (PInt 1)
    = Return (PDict [("flour", PInt 2); ("egg", PInt 3)]) ∧
    ∃ ingredients,
      summary (3 + limit) pasta_book (Some "pasta")
      = Return (Json (PDict [("name", PStr "pasta"); ("cookTime", PInt 30);
                             ("ingredients", PList ingredients)]) 200) ∧
      ingredients ≡ₚ [PDict [("name", PStr "flour"); ("quantity", PInt 2)];
                      PDict [("name", PStr "egg"); ("quantity", PInt 3)]].
Proof.
  split; [apply pasta_book_registry|]. intros limit.
  assert (get_base_ingredient_counts (3 + limit) pasta_book (PStr "pasta") (PInt 1)
          = Return (PDict [("flour", PInt 2); ("egg", PInt 3)])) as Hcounts.
  { rewrite (get_base_ingredient_counts_ge _ 3%nat); [by vm_compute| | |lia].
    - apply posted_wf.
    - by vm_compute. }
  split; [done|].
  exists [PDict [("name", PStr "flour"); ("quantity", PInt 2)];
          PDict [("name", PStr "egg"); ("quantity", PInt 3)]].
  split; [|done]. unfold summary. rewrite Hcounts. by vm_compute.
Qed.

(** C3: the resolver is linear in the multiplier: where it succeeds with
    multiplier 1 it succeeds with every integer [k], with the same stack, and
    gives each ingredient [k] times its quantity; on the registry of section
    8, "pasta" with multiplier 2 is flour 4 and egg 6. *)
Theorem resolution_scales_linearly :
  (∀ (float : Type) (ops : FloatOps float) (cookbook : gmap string (pyval float))
     (limit : nat) (name : string) (v : pyval float),
     registry_wf cookbook →
     get_base_ingredient_counts limit cookbook (PStr name) (PInt 1) = Return v →
     ∃ d, v = int_dict d ∧
       ∀ k, get_base_ingredient_counts limit cookbook (PStr name) (PInt k)
            = Return (int_dict (scale_counts k d))) ∧
  (∀ limit : nat,
     get_base_ingredient_counts (3 + limit) pasta_book (PStr "pasta") (PInt 2)
     = Return (PDict [("flour", PInt 4); ("egg", PInt 6)])).
Proof.
  split.
  - intros float ops cookbook limit name v. apply counts_scale.
  - intros limit.
    rewrite (get_base_ingredient_counts_ge _ 3%nat); [by vm_compute| | |lia].
    + apply posted_wf.
    + by vm_compute.
Qed.

(** Sugar comes to the cake along two paths, 2 * 3 through the batter and
    1 * 2 through the icing, and the two are added. *)
Example cake_sugar :
  get_base_ingredient_counts 3 cake_book (PStr "cake") (PInt 1)
  = Return (PDict [("sugar", PInt 8)]) ∧
  resolve 3 (registry_of cake_book) "cake" 1 = Some (inr {[ "sugar" := 8 ]}).
Proof. split; by vm_compute. Qed.

(** ** Instances *)

Lemma resolve_pasta :
  refines (get_base_ingredient_counts 3 pasta_book (PStr "pasta") (PInt 1))
    (resolve 3 (registry_of pasta_book) "pasta" 1).
Proof.
  apply get_base_ingredient_counts_resolve. apply posted_wf.
Defined.

Lemma scale_pasta :
  ∃ d, (PDict [("flour", PInt 2); ("egg", PInt 3)] : pyval Empty_set) = int_dict d ∧
    ∀ k, get_base_ingredient_counts 3 pasta_book (PStr "pasta") (PInt k)
         = Return (int_dict (scale_counts k d)).
Proof.
  destruct resolution_scales_linearly as [Hscale _].
  apply Hscale; [apply posted_wf | by vm_compute].
Defined.

Lemma second_egg_rejected :
  create_entry pasta_book (ingredient_payload "egg" 5)
  = (Return DuplicateName, pasta_book) ∧
  (create_entry pasta_book (ingredient_payload "egg" 5)).2 !! "egg"
  = Some (ingredient_payload "egg" 10).
Proof.
  destruct (create_entry_atomic pasta_book (ingredient_payload "egg" 5))
    as [_ Hduplicate].
  apply (Hduplicate (PStr "ingredient") (PStr "egg") "egg" (PInt 5));
    by vm_compute.
Defined.


Lemma empty_object_rejected :
  create_entry pasta_book (PDict [])
  = (Return InvalidEntryFormat, pasta_book).
Proof.
  apply (falsy_payload_invalid_entry_format pasta_book (PDict [])). done.
Defined.

(** A registry in which every reference goes to a name of lower rank has no
    cycle. *)
Lemma ranked_acyclic (registry : gmap string Entry) (rank : string → nat) :
  (∀ a b, requires registry a b → (rank b < rank a)%nat) → acyclic registry.
Proof.
  intros Hrank a Hcycle.
  assert (∀ x y, tc (requires registry) x y → (rank y < rank x)%nat) as Hlt.
  { induction 1 as [x y Hstep|x y z Hstep _ IH].
    - by apply Hrank.
    - apply Hrank in Hstep. lia. }
  apply Hlt in Hcycle. lia.
Qed.

Lemma pasta_book_acyclic : acyclic (registry_of pasta_book).
Proof.
  apply (ranked_acyclic _
    (λ name, if String.eqb name "pasta" then 2 else
             if String.eqb name "dough" then 1 else 0)%nat).
  intros a b (its & Hits & Hin). rewrite pasta_book_registry in Hits.
  repeat (apply lookup_insert_Some in Hits as [[<- Hits]|[_ Hits]];
          [injection Hits as <- || discriminate Hits|]).
  - apply list_elem_of_singleton in Hin as ->. simpl. lia.
  - apply lookup_singleton_Some in Hits as [<- [= <-]].
    apply elem_of_cons in Hin as [->|Hin%list_elem_of_singleton];
      [|rewrite Hin]; simpl; lia.
Qed.

Lemma loop_book_registry :
  registry_of loop_book
  = {[ "A" := Recipe [("B", 1)]; "B" := Recipe [("A", 1)] ]}.
Proof. by vm_compute. Qed.

Lemma loop_book_enters :
  rtc (enters loop_book) "A" "A" ∧ tc (enters loop_book) "A" "A".
Proof.
  split; [done|]. apply (tc_l _ _ "B"); [|apply tc_once].
  - exists [], 1, []. rewrite loop_book_registry. split; [done|].
    by intros x ?%elem_of_nil.
  - exists [], 1, []. rewrite loop_book_registry. split; [done|].
    by intros x ?%elem_of_nil.
Qed.

Lemma loop_before_missing_book_registry :
  registry_of loop_before_missing_book
  = {[ "A" := Recipe [("B", 1); ("missing", 1)]; "B" := Recipe [("A", 1)] ]}.
Proof. by vm_compute. Qed.

Lemma loop_before_missing_book_enters :
  rtc (enters loop_before_missing_book) "A" "A" ∧
  tc (enters loop_before_missing_book) "A" "A".
Proof.
  split; [done|]. apply (tc_l _ _ "B"); [|apply tc_once].
  - exists [], 1, [("missing", 1)].
    rewrite loop_before_missing_book_registry. split; [done|].
    by intros x ?%elem_of_nil.
  - exists [], 1, []. rewrite loop_before_missing_book_registry.
    split; [done|]. by intros x ?%elem_of_nil.
Qed.

Lemma termination_instances :
  (∃ result, result ≠ Raise RecursionError ∧
     ∀ limit, (size (registry_of pasta_book) < limit)%nat →
       get_base_ingredient_counts limit pasta_book (PStr "pasta") (PInt 1)
       = result) ∧
  (∀ limit,
     get_base_ingredient_counts limit loop_book (PStr "A") (PInt 1)
     = Raise RecursionError) ∧
  (∀ limit,
     get_base_ingredient_counts limit loop_before_missing_book (PStr "A") (PInt 1)
     = Raise RecursionError).
Proof.
  split; [|split].
  - destruct (resolver_termination pasta_book "pasta" 1 (posted_wf _))
      as [Hends _].
    apply Hends, pasta_book_acyclic.
  - destruct (resolver_termination loop_book "A" 1 (posted_wf _))
      as (_ & [_ Hloops] & _).
    apply Hloops. exists "A". apply loop_book_enters.
  - destruct (resolver_termination loop_before_missing_book "A" 1 (posted_wf _))
      as (_ & [_ Hloops] & _).
    apply Hloops. exists "A". apply loop_before_missing_book_enters.
Defined.


Lemma pasta_book_invariant :
  registry_wf pasta_book ∧
  ∀ limit name multiplier,
    get_base_ingredient_counts limit pasta_book (PStr name) (PInt multiplier)
    ≠ Return PNone.
Proof.
  destruct (registry_invariant pasta_book (posted_reachable _))
    as (Hwf & _ & _ & _ & Hdispatch & _).
  by split.
Defined.

(** ** Where the code differs from a claim *)

(** C9, where the code departs from it: the checks of [cookTime] and of
    [quantity] are [isinstance(_, int)], which holds of [True] and [False],
    and [create_entry] stores the payload as it came.  So the two requests
    below are answered with 200, and the cookbook they leave, which the
    program can reach, has an ingredient whose [cookTime] is the boolean
    [True] and a recipe whose required item has the boolean [True] for a
    quantity: neither is an integer.  The resolver and [summary] then count
    with them as with 1. *)
Theorem boolean_stored_for_integer :
  create_entry ∅ salt_payload = (Return Created, {[ "salt" := salt_payload ]}) ∧
  create_entry {[ "salt" := salt_payload ]} brine_payload
  = (Return Created, brine_book) ∧
  reachable brine_book ∧
  brine_book !! "salt" = Some salt_payload ∧
  get salt_payload "type" = Return (PStr "ingredient") ∧
  get salt_payload "cookTime" = Return (PBool true) ∧
  brine_book !! "brine" = Some brine_payload ∧
  get brine_payload "type" = Return (PStr "recipe") ∧
  (∃ item,
     get brine_payload "requiredItems" = Return (PList [item]) ∧
     get item "quantity" = Return (PBool true)) ∧
  (∀ z : Z, (PBool true : pyval Empty_set) ≠ PInt z) ∧
  get_base_ingredient_counts 2 brine_book (PStr "brine") (PInt 1)
  = Return (PDict [("salt", PInt 1)]) ∧
  summary 2 brine_book (Some "brine")
  = Return (Json (PDict [("name", PStr "brine"); ("cookTime", PInt 1);
                         ("ingredients",
                          PList [PDict [("name", PStr "salt");
                                        ("quantity", PInt 1)]])]) 200).
Proof.
  split; [by vm_compute|]. split; [by vm_compute|].
  split; [apply posted_reachable|]. split; [by vm_compute|].
  split; [done|]. split; [done|]. split; [by vm_compute|]. split; [done|].
  split; [by eexists|]. split; [done|]. split; by vm_compute.
Qed.


(** C8 as stated fails: "B" and "A" require each other, so a cycle can be
    reached from "A", and yet the call for "A" ends, with the exception for
    the missing name that "A" asks for first, on any stack of two frames or
    more. *)
Lemma cycle_behind_missing_name :
  registry_wf loop_after_missing_book ∧
  reaches_cycle (registry_of loop_after_missing_book) "A" ∧
  ∀ limit : nat,
    get_base_ingredient_counts (2 + limit) loop_after_missing_book (PStr "A") (PInt 1)
    = Raise (CannotFind (PStr "missing")).
Proof.
  split; [apply posted_wf|]. split.
  - exists "A". split; [done|].
    assert (registry_of loop_after_missing_book
            = {[ "A" := Recipe [("missing", 1); ("B", 1)];
                 "B" := Recipe [("A", 1)] ]}) as -> by by vm_compute.
    apply (tc_l _ _ "B"); [|apply tc_once].
    + exists [("missing", 1); ("B", 1)]. split; [done|].
      apply list_elem_of_further, list_elem_of_here.
    + exists [("A", 1)]. split; [done|]. apply list_elem_of_here.
  - intros limit.
    rewrite (get_base_ingredient_counts_ge _ 2%nat); [by vm_compute| | |lia].
    + apply posted_wf.
    + by vm_compute.
Qed.

(** * Further properties of the handlers *)

Section MoreProperties.
Context {float : Type} `{!FloatOps float}.

Local Abbreviation pyval := (pyval float).
Local Abbreviation outcome := (outcome float).
Local Abbreviation response := (response float).
Local Abbreviation int_pairs := (@int_pairs float).
Local Abbreviation int_dict := (@int_dict float).
Local Abbreviation items_typed := (@items_typed float).
Local Abbreviation counts_typed_of := (@counts_typed_of float).

Implicit Types (cookbook : gmap string pyval) (entry v : pyval).

(** ** What [create_entry] accepts *)

Lemma required_items_loop_passes seen elements requiredItems :
  mapM item_view elements = Some requiredItems →
  NoDup requiredItems.*1 →
  (∀ name, name ∈ requiredItems.*1 → name ∉ seen) →
  required_items_loop seen elements = Return None.
Proof.
  intros Hitems Hnd Hfresh.
  rewrite <- (app_nil_r elements).
  by rewrite (required_items_loop_app seen elements requiredItems []).
Qed.

Lemma entry_wf_validate cookbook entry name :
  entry_wf name entry → cookbook !! name = None →
  validate cookbook entry = Return (inr name).
Proof.
  intros (Hne & Hname & Hshape) Hfree.
  destruct entry as [| | | | | |d]; try done.
  unfold validate. cbn [get get_default] in Hname. injection Hname as Hname.
  assert (negb (truthy (PDict d : pyval)) = false) as ->.
  { destruct d; [done|]. done. }
  unfold entry_view in Hshape. cbv zeta in Hshape.
  cbn [get get_default mbind outcome_bind]. rewrite Hname.
  assert (nonempty_str (PStr name : pyval) = Some name) as ->.
  { apply nonempty_str_Some. done. }
  rewrite Hfree.
  destruct (eq_str (default PNone (dict_get d "type")) "ingredient")
    eqn:Hingredient.
  - assert (eq_str (default PNone (dict_get d "type")) "recipe" = false)
      as ->.
    { destruct (default PNone (dict_get d "type")) as [| | | |t| |];
        try done. simpl in *. apply String.eqb_eq in Hingredient as ->. done. }
    cbn [mbind outcome_bind orb negb].
    destruct (as_int (default PNone (dict_get d "cookTime")))
      as [c|] eqn:Hc; [|done].
    assert (invalid_cook_time (default PNone (dict_get d "cookTime"))
            = false) as ->.
    { unfold invalid_cook_time. rewrite Hc.
      destruct (default PNone (dict_get d "cookTime")); try done;
        simpl in *; rewrite ?orb_false_l; apply Z.ltb_ge; lia. }
    done.
  - destruct (eq_str (default PNone (dict_get d "type")) "recipe");
      [|done].
    cbn [mbind outcome_bind orb negb andb].
    destruct (default PNone (dict_get d "requiredItems"))
      as [| | | | |elements|]; try done.
    destruct (mapM item_view elements) as [its|] eqn:Hits; [|done].
    cbn [is_none isinstance_list orb negb iter mbind outcome_bind].
    rewrite (required_items_loop_passes ∅ elements its); [done..|set_solver].
Qed.

Lemma create_entry_created cookbook entry :
  (create_entry cookbook entry).1 = Return Created
  ↔ ∃ name, entry_wf name entry ∧ cookbook !! name = None.
Proof.
  split.
  - unfold create_entry.
    destruct (validate cookbook entry) as [[r|name]|e] eqn:Hvalidate; simpl.
    + intros [= ->]. by apply validate_status in Hvalidate.
    + intros _. apply validate_accepts in Hvalidate as [??]. eauto.
    + done.
  - intros (name & Hwf & Hfree). unfold create_entry.
    by rewrite (entry_wf_validate cookbook entry name).
Qed.

(** [create_entry] answers 200 exactly for the payloads that have the shape
    of an entry under a name that is not taken yet. *)
Theorem create_entry_accepts_iff cookbook entry :
  (create_entry cookbook entry).1 = Return Created
  ↔ ∃ name, entry_wf name entry ∧ cookbook !! name = None.
Proof. apply create_entry_created. Qed.

(** An accepted payload is stored as it came, under its own name; nothing
    else in the cookbook changes, and the cookbook has one entry more. *)
Theorem create_entry_round_trip cookbook entry :
  (create_entry cookbook entry).1 = Return Created →
  ∃ name,
    get entry "name" = Return (PStr name) ∧
    (create_entry cookbook entry).2 !! name = Some entry ∧
    (∀ other, other ≠ name →
       (create_entry cookbook entry).2 !! other = cookbook !! other) ∧
    size (create_entry cookbook entry).2 = S (size cookbook).
Proof.
  intros Haccepted.
  destruct (create_entry_cookbook cookbook entry)
    as [Hsame|(name & Hfree & (_ & Hname & _) & _ & Hstored)].
  { apply create_entry_created in Haccepted as (name & Hwf & Hfree).
    unfold create_entry in Hsame.
    rewrite (entry_wf_validate cookbook entry name) in Hsame by done.
    simpl in Hsame. apply (f_equal (lookup name)) in Hsame.
    rewrite lookup_insert_eq in Hsame. congruence. }
  exists name. rewrite Hstored. split; [done|]. split; [|split].
  - apply lookup_insert_eq.
  - intros other Hother. by rewrite lookup_insert_ne.
  - by apply map_size_insert_None.
Qed.

(** The first three rules are tried in their order on every object: a bad
    type is reported whatever the name is, a bad name whatever the cook time
    is, and a bad cook time even when the name is taken. *)
Theorem validation_rule_order cookbook d :
  d ≠ [] →
  (eq_str (default PNone (dict_get d "type")) "recipe"
   || eq_str (default PNone (dict_get d "type")) "ingredient" = false →
   create_entry cookbook (PDict d) = (Return InvalidType, cookbook)) ∧
  (eq_str (default PNone (dict_get d "type")) "recipe"
   || eq_str (default PNone (dict_get d "type")) "ingredient" = true →
   nonempty_str (default PNone (dict_get d "name")) = None →
   create_entry cookbook (PDict d) = (Return InvalidName, cookbook)) ∧
  (eq_str (default PNone (dict_get d "type")) "ingredient" = true →
   is_Some (nonempty_str (default PNone (dict_get d "name"))) →
   invalid_cook_time (default PNone (dict_get d "cookTime")) = true →
   create_entry cookbook (PDict d) = (Return InvalidCookTime, cookbook)).
Proof.
  intros Hd. unfold create_entry, validate.
  assert (negb (truthy (PDict d : pyval)) = false) as -> by by destruct d.
  cbn [get get_default mbind outcome_bind].
  split; [|split].
  - intros Htype. apply orb_false_iff in Htype as [-> ->]. done.
  - intros Htype Hname.
    destruct (eq_str (default PNone (dict_get d "type")) "recipe"),
      (eq_str (default PNone (dict_get d "type")) "ingredient");
      try done; cbn [mbind outcome_bind orb negb]; by rewrite Hname.
  - intros -> [name Hname] Hcook. rewrite orb_true_r.
    destruct (eq_str (default PNone (dict_get d "type")) "recipe");
      cbn [mbind outcome_bind negb andb]; by rewrite Hname, Hcook.
Qed.

(** The answer of [create_entry] depends on the cookbook only through the
    question whether the name of the payload is taken: the names of the
    required items are not looked up. *)
Theorem create_entry_reads_own_name cookbook cookbook' entry :
  (∀ name, get entry "name" = Return (PStr name) →
           (is_Some (cookbook !! name) ↔ is_Some (cookbook' !! name))) →
  (create_entry cookbook entry).1 = (create_entry cookbook' entry).1.
Proof.
  intros Hname.
  assert (validate cookbook entry = validate cookbook' entry) as Hsame.
  { unfold validate. destruct (negb (truthy entry)); [done|].
    destruct entry as [| | | | | |d]; try done.
    cbn [get get_default mbind outcome_bind] in *.
    destruct (if eq_str _ "recipe" then _ else _); [|done].
    cbn [mbind outcome_bind].
    destruct (if eq_str _ "ingredient" then _ else _); [|done].
    cbn [mbind outcome_bind]. destruct (negb _); [done|].
    destruct (nonempty_str _) as [name|] eqn:Hn; [|done].
    apply nonempty_str_Some in Hn as [Hn _].
    rewrite (bool_decide_ext _ _ (Hname name (f_equal Return Hn))). done. }
  unfold create_entry. rewrite Hsame.
  by destruct (validate cookbook' entry) as [[r|name]|e].
Qed.

(** ** The summary in closed form *)

Lemma summary_loop_total cookbook d total ingredientsList :
  registry_wf cookbook →
  (∀ n, n ∈ d.*1 → ∃ c, registry_of cookbook !! n = Some (Ingredient c)) →
  summary_loop cookbook (int_pairs d) (PInt total) ingredientsList
  = Return (PInt (total_cook_time (registry_of cookbook) total d),
            ingredientsList ++ ingredient_objects d).
Proof.
  intros Hwf. revert total ingredientsList.
  induction d as [|[n q] d IH]; intros total ingredientsList Hkeys.
  { simpl. by rewrite app_nil_r. }
  destruct (Hkeys n) as [c Hc]; [set_solver|].
  pose proof Hc as Hcook.
  apply registry_of_ingredient in Hc
    as (entry & value & Hentry & _ & Hvalue & _ & Hint & _); [|done].
  cbn [int_pairs fmap list_fmap prod_map fst snd id summary_loop].
  rewrite Hentry, Hvalue. cbn [mbind outcome_bind].
  unfold mul. cbn [as_int]. rewrite Hint. cbn [mbind outcome_bind add as_int].
  fold (int_pairs d). rewrite IH by (intros ??; apply Hkeys; set_solver).
  unfold total_cook_time at 2. cbn [foldl fst snd].
  unfold cook_time at 2. rewrite Hcook.
  rewrite <- app_assoc. done.
Qed.

Lemma registry_of_recipe cookbook name requiredItems :
  registry_of cookbook !! name = Some (Recipe requiredItems) →
  ∃ entry, cookbook !! name = Some entry ∧
           get entry "type" = Return (PStr "recipe").
Proof.
  unfold registry_of. rewrite lookup_omap.
  destruct (cookbook !! name) as [entry|]; [|done]. simpl.
  intros Hview. exists entry. split; [done|].
  destruct entry as [| | | | | |d]; try done. unfold entry_view in Hview.
  cbv zeta in Hview. cbn [get get_default].
  destruct (default PNone (dict_get d "type")) as [| | | |t| |]; try done.
  simpl in Hview. destruct (String.eqb_spec t "ingredient").
  { by destruct (as_int _). }
  destruct (String.eqb_spec t "recipe") as [Ht|]; [by subst|done].
Qed.

Lemma summary_closed_form cookbook limit name requiredItems d :
  registry_wf cookbook →
  registry_of cookbook !! name = Some (Recipe requiredItems) →
  get_base_ingredient_counts limit cookbook (PStr name) (PInt 1)
  = Return (int_dict d) →
  summary limit cookbook (Some name)
  = Return (Json (PDict [("name", PStr name);
                         ("cookTime",
                          PInt (total_cook_time (registry_of cookbook) 0 d));
                         ("ingredients", PList (ingredient_objects d))]) 200).
Proof.
  intros Hwf Hrecipe Hcounts.
  destruct (registry_of_recipe _ _ _ Hrecipe) as (entry & Hentry & Htype).
  pose proof (Hwf _ _ Hentry) as (Hname & _).
  unfold summary. rewrite Hentry, Htype.
  assert (negb (truthy (PStr name : pyval)) = false) as ->.
  { simpl. by destruct (String.eqb_spec name ""). }
  cbn [mbind outcome_bind eq_str]. simpl negb. cbv iota. rewrite Hcounts.
  cbn [items int_dict mbind outcome_bind].
  rewrite summary_loop_total; [done..|].
  intros n Hn. rewrite counts_typed in Hcounts by done.
  apply int_dict_fmap_return in Hcounts as (d' & Hd' & Heq).
  injection Heq as ->%int_pairs_inj. by eapply counts_typed_of_keys.
Qed.


(** ** Recipes the validator lets in *)

Lemma registry_of_insert cookbook name entry view :
  entry_view entry = Some view →
  registry_of (<[name := entry]> cookbook) = <[name := view]> (registry_of cookbook).
Proof.
  intros Hview. unfold registry_of. apply map_eq. intros i.
  rewrite lookup_omap. destruct (decide (i = name)) as [->|Hne].
  - by rewrite !lookup_insert_eq.
  - by rewrite !lookup_insert_ne, lookup_omap.
Qed.

(** Where the resolver returns, it returns the same on a larger registry. *)
Lemma items_typed_weaken (self self' : string → Z → outcome (list (string * Z)))
    multiplier requiredItems result d :
  (∀ subName quantity sub,
     self subName quantity = Return sub → self' subName quantity = Return sub) →
  items_typed self multiplier requiredItems result = Return d →
  items_typed self' multiplier requiredItems result = Return d.
Proof.
  intros Hself. revert result.
  induction requiredItems as [|[subName quantity] rest IH]; intros result; simpl;
    [done|].
  destruct (self subName (multiplier * quantity)) as [sub|e] eqn:Hsub; simpl;
    [|done].
  rewrite (Hself _ _ _ Hsub). simpl. apply IH.
Qed.

Lemma counts_typed_of_weaken limit (registry registry' : gmap string Entry)
    name multiplier d :
  registry ⊆ registry' →
  counts_typed_of limit registry name multiplier = Return d →
  counts_typed_of limit registry' name multiplier = Return d.
Proof.
  intros Hsub. revert name multiplier d.
  induction limit as [|limit IH]; intros name multiplier d; [done|].
  rewrite !counts_typed_of_unfold.
  destruct (registry !! name) as [entry|] eqn:Hname; [|done].
  rewrite (lookup_weaken _ _ _ _ Hname Hsub).
  destruct entry as [cookTime|requiredItems]; [done|].
  apply items_typed_weaken. intros ???. apply IH.
Qed.

Lemma create_entry_registry_of cookbook entry :
  registry_of cookbook ⊆ registry_of (create_entry cookbook entry).2.
Proof.
  destruct (create_entry_cookbook cookbook entry)
    as [->|(name & Hfree & (_ & _ & Hshape) & _ & ->)]; [done|].
  destruct (entry_view entry) as [view|] eqn:Hview; [|done].
  rewrite (registry_of_insert _ _ _ view) by done.
  apply insert_subseteq. unfold registry_of. by rewrite lookup_omap, Hfree.
Qed.

Lemma resolution_stable_lemma cookbook payload limit name multiplier v :
  registry_wf cookbook →
  get_base_ingredient_counts limit cookbook (PStr name) (PInt multiplier)
  = Return v →
  get_base_ingredient_counts limit (create_entry cookbook payload).2
    (PStr name) (PInt multiplier) = Return v.
Proof.
  intros Hwf Hcounts.
  pose proof (create_entry_wf cookbook payload Hwf) as Hwf'.
  pose proof (create_entry_registry_of cookbook payload) as Hsub.
  rewrite counts_typed in Hcounts by done.
  apply int_dict_fmap_return in Hcounts as (d & Hd & ->).
  rewrite counts_typed by done.
  by rewrite (counts_typed_of_weaken _ _ _ _ _ d Hsub Hd).
Qed.

(** A resolution that has succeeded stays what it is whatever is posted
    afterwards. *)
Theorem resolution_stable cookbook payload limit name multiplier v :
  registry_wf cookbook →
  get_base_ingredient_counts limit cookbook (PStr name) (PInt multiplier)
  = Return v →
  get_base_ingredient_counts limit (create_entry cookbook payload).2
    (PStr name) (PInt multiplier) = Return v.
Proof. apply resolution_stable_lemma. Qed.

(** So does a summary that was answered with 200. *)
Theorem summary_stable cookbook payload limit name body :
  registry_wf cookbook →
  summary limit cookbook (Some name) = Return (Json body 200) →
  summary limit (create_entry cookbook payload).2 (Some name)
  = Return (Json body 200).
Proof.
  intros Hwf Hsummary.
  pose proof (create_entry_wf cookbook payload Hwf) as Hwf'.
  pose proof (create_entry_registry_of cookbook payload) as Hsub.
  destruct (cookbook !! name) as [entry|] eqn:Hentry.
  2:{ unfold summary in Hsummary. rewrite Hentry in Hsummary.
      by destruct (negb _). }
  destruct (summary_present cookbook limit name entry)
    as (type & Htype & Hother & Hrecipe); [done..|].
  destruct (eq_str type "recipe") eqn:Hisrecipe.
  2:{ rewrite Hother in Hsummary by done. done. }
  destruct Hrecipe as [Hfail _]; [done|].
  destruct (get_base_ingredient_counts limit cookbook (PStr name) (PInt 1))
    as [v|e] eqn:Hcounts.
  2:{ rewrite (Hfail e) in Hsummary by done. done. }
  pose proof (resolution_stable_lemma cookbook payload limit name 1 v Hwf Hcounts)
    as Hcounts'.
  rewrite counts_typed in Hcounts by done.
  apply int_dict_fmap_return in Hcounts as (d & Hd & ->).
  assert (∃ its, registry_of cookbook !! name = Some (Recipe its)) as [its Hits].
  { unfold registry_of. rewrite lookup_omap, Hentry. simpl.
    pose proof (Hwf _ _ Hentry) as (_ & _ & Hshape).
    destruct entry as [| | | | | |e]; try done.
    cbn [get get_default] in Htype. injection Htype as <-.
    unfold entry_view in *. cbv zeta in *.
    destruct (default PNone (dict_get e "type")) as [| | | |t| |]; try done.
    simpl in *. apply String.eqb_eq in Hisrecipe as ->. simpl in *.
    destruct (default PNone (dict_get e "requiredItems")) as [| | | | |els|];
      try done.
    destruct (mapM item_view els); [eauto|done]. }
  rewrite (summary_closed_form cookbook limit name its d) in Hsummary;
    [|done|done|by rewrite counts_typed, Hd].
  rewrite (summary_closed_form _ limit name its d);
    [|done|by eapply lookup_weaken|done].
  rewrite <- Hsummary. do 6 f_equal.
  assert (∀ n, n ∈ d.*1 →
    cook_time (registry_of (create_entry cookbook payload).2) n
    = cook_time (registry_of cookbook) n) as Hcook.
  { intros n Hn. eapply counts_typed_of_keys in Hn as [c Hc]; [|done].
    unfold cook_time. by rewrite Hc, (lookup_weaken _ _ _ _ Hc Hsub). }
  clear -Hcook. generalize 0. induction d as [|[n q] d IH]; intros start; [done|].
  unfold total_cook_time. cbn [foldl fst snd].
  rewrite Hcook by set_solver. apply IH. intros ??. apply Hcook. set_solver.
Qed.

Lemma post_recipe cookbook name elements requiredItems :
  name ≠ "" → cookbook !! name = None →
  mapM item_view elements = Some requiredItems →
  NoDup requiredItems.*1 →
  create_entry cookbook (recipe_object name elements)
  = (Return Created, <[name := recipe_object name elements]> cookbook) ∧
  registry_of (<[name := recipe_object name elements]> cookbook)
  = <[name := Recipe requiredItems]> (registry_of cookbook).
Proof.
  intros Hname Hfree Hitems Hnd.
  assert (entry_view (recipe_object name elements : pyval)
          = Some (Recipe requiredItems)) as Hview.
  { unfold recipe_object, entry_view. simpl. by rewrite Hitems. }
  split; [|by apply registry_of_insert].
  unfold create_entry. rewrite (entry_wf_validate _ _ name); [done| |done].
  split; [done|]. split; [done|]. by rewrite Hview.
Qed.

(** A recipe without required items is accepted; it resolves to the empty
    mapping, and its summary has cook time 0 and no ingredients. *)
Theorem empty_recipe cookbook name :
  registry_wf cookbook → name ≠ "" → cookbook !! name = None →
  (create_entry cookbook (recipe_object name [])).1 = Return Created ∧
  ∀ limit multiplier,
    get_base_ingredient_counts (S limit)
      (create_entry cookbook (recipe_object name [])).2
      (PStr name) (PInt multiplier) = Return (PDict []) ∧
    summary (S limit) (create_entry cookbook (recipe_object name [])).2 (Some name)
    = Return (Json (PDict [("name", PStr name); ("cookTime", PInt 0);
                           ("ingredients", PList [])]) 200).
Proof.
  intros Hwf Hname Hfree.
  pose proof (create_entry_wf cookbook (recipe_object name []) Hwf) as Hwf'.
  destruct (post_recipe cookbook name [] []) as [Hpost Hregistry];
    [done|done|done|constructor|].
  rewrite Hpost in *. cbn [fst snd] in *. split; [done|]. intros limit multiplier.
  assert (∀ m, get_base_ingredient_counts (S limit)
                 (<[name := recipe_object name []]> cookbook)
                 (PStr name) (PInt m) = Return (int_dict [])) as Hcounts.
  { intros m. rewrite counts_typed by done.
    by rewrite counts_typed_of_unfold, Hregistry, lookup_insert_eq. }
  split; [apply Hcounts|].
  rewrite (summary_closed_form _ _ _ [] []); [done|done| |done].
  by rewrite Hregistry, lookup_insert_eq.
Qed.

(** A recipe that requires itself is accepted, and its summary then fails
    with the answer for a missing ingredient, whatever the stack. *)
Theorem self_requiring_recipe cookbook name quantity :
  registry_wf cookbook → name ≠ "" → cookbook !! name = None →
  (create_entry cookbook (recipe_object name [item_object name quantity])).1
  = Return Created ∧
  ∀ limit,
    get_base_ingredient_counts limit
      (create_entry cookbook (recipe_object name [item_object name quantity])).2
      (PStr name) (PInt 1) = Raise RecursionError ∧
    summary limit
      (create_entry cookbook (recipe_object name [item_object name quantity])).2
      (Some name) = Return IngredientResolutionFailed.
Proof.
  intros Hwf Hname Hfree.
  pose proof (create_entry_wf cookbook
                (recipe_object name [item_object name quantity]) Hwf) as Hwf'.
  destruct (post_recipe cookbook name [item_object name quantity]
              [(name, quantity)]) as [Hpost Hregistry]; [done|done| | |].
  { simpl. destruct (String.eqb_spec name ""); done. }
  { apply NoDup_singleton. }
  rewrite Hpost in *. cbn [fst snd] in *. split; [done|]. intros limit.
  assert (∀ m, counts_typed_of limit
                 (registry_of
                    (<[name := recipe_object name [item_object name quantity]]>
                       cookbook))
                 name m = Raise RecursionError) as Hdeep.
  { rewrite Hregistry. induction limit as [|limit IH]; intros m; [done|].
    rewrite counts_typed_of_unfold, lookup_insert_eq. simpl. by rewrite IH. }
  assert (get_base_ingredient_counts limit
            (<[name := recipe_object name [item_object name quantity]]> cookbook)
            (PStr name) (PInt 1) = Raise RecursionError) as Hcounts.
  { rewrite counts_typed by done. by rewrite Hdeep. }
  split; [done|].
  destruct (summary_present _ limit name
              (recipe_object name [item_object name quantity]) Hwf')
    as (type & Htype & _ & Hrecipe); [apply lookup_insert_eq|].
  injection Htype as <-. destruct Hrecipe as [Hfail _]; [done|].
  by apply (Hfail RecursionError).
Qed.

(** ** Status codes *)

(** [create_entry] answers 200 with an empty body or 400 with a text, and
    [summary] answers 200 with a JSON body or 400 with a text. *)
Theorem handler_statuses cookbook limit entry recipe r :
  ((create_entry cookbook entry).1 = Return r →
   r = Created ∨ ∃ body, r = Text body 400) ∧
  (summary limit cookbook recipe = Return r →
   (∃ body, r = Json body 200) ∨ ∃ body, r = Text body 400).
Proof.
  split.
  - unfold create_entry.
    destruct (validate cookbook entry) as [[r'|name]|e] eqn:Hvalidate; simpl;
      [|intros [= <-]; by left|done].
    intros [= ->]. right. revert Hvalidate. unfold validate.
    assert (∀ seen elements,
      required_items_loop seen elements = Return (Some r) →
      ∃ body, r = Text body 400) as Hloop.
    { intros seen elements. revert seen.
      induction elements as [|element elements IH]; intros seen; simpl; [done|].
      destruct (get element "name") as [requiredName|]; simpl; [|done].
      destruct (nonempty_str requiredName); [|intros [= <-]; by eexists].
      case_bool_decide; [intros [= <-]; by eexists|].
      destruct (get element "quantity") as [quantity|]; simpl; [|done].
      destruct (_ || _); [intros [= <-]; by eexists|]. apply IH. }
    destruct (negb (truthy entry)); [intros [= <-]; by eexists|].
    destruct (get entry "type") as [type|]; simpl; [|done].
    destruct (get entry "name") as [name|]; simpl; [|done].
    destruct (if eq_str type "recipe" then _ else _) as [requiredItems|]; simpl;
      [|done].
    destruct (if eq_str type "ingredient" then _ else _) as [cookTime|]; simpl;
      [|done].
    destruct (negb _); [intros [= <-]; by eexists|].
    destruct (nonempty_str name); [|intros [= <-]; by eexists].
    destruct (_ && _); [intros [= <-]; by eexists|].
    case_bool_decide; [intros [= <-]; by eexists|].
    destruct (eq_str type "recipe"); [|done].
    destruct (_ || _); [intros [= <-]; by eexists|].
    destruct (iter requiredItems) as [elements|]; simpl; [|done].
    destruct (required_items_loop ∅ elements) as [[r'|]|] eqn:Hearly; simpl;
      [|done|done].
    intros [= ->]. by eapply Hloop.
  - unfold summary. destruct recipe as [name|]; [|intros [= <-]; right; by eexists].
    destruct (negb _); [intros [= <-]; right; by eexists|].
    destruct (cookbook !! name) as [stored|]; [|intros [= <-]; right; by eexists].
    destruct (get stored "type") as [type|]; simpl; [|done].
    destruct (negb _); [intros [= <-]; right; by eexists|].
    destruct (get_base_ingredient_counts _ _ _ _) as [base|e];
      [|intros [= <-]; right; by eexists].
    destruct (items base) as [pairs|]; simpl; [|done].
    destruct (summary_loop cookbook pairs (PInt 0) []) as [[total list]|]; simpl;
      [|done].
    intros [= <-]. left. by eexists.
Qed.

(** ** When a summary succeeds *)


(** ** The order of the required items *)











End MoreProperties.

(** ** Instances of the further properties *)

Lemma bread_accepted :
  (create_entry pasta_book (ingredient_payload "bread" 4)).1 = Return Created.
Proof.
  apply create_entry_accepts_iff. exists "bread".
  split; [|by vm_compute]. split; [done|]. split; [done|]. by vm_compute.
Defined.

Lemma bread_round_trip :
  ∃ name,
    get (ingredient_payload "bread" 4) "name" = Return (PStr name) ∧
    (create_entry pasta_book (ingredient_payload "bread" 4)).2 !! name
    = Some (ingredient_payload "bread" 4) ∧
    (∀ other, other ≠ name →
       (create_entry pasta_book (ingredient_payload "bread" 4)).2 !! other
       = pasta_book !! other) ∧
    size (create_entry pasta_book (ingredient_payload "bread" 4)).2
    = S (size pasta_book).
Proof.
  apply (create_entry_round_trip pasta_book (ingredient_payload "bread" 4)).
  by vm_compute.
Defined.

Lemma negative_cook_time_on_taken_name :
  create_entry pasta_book
    (PDict [("type", PStr "ingredient"); ("name", PStr "egg");
            ("cookTime", PInt (-1))])
  = (Return InvalidCookTime, pasta_book).
Proof.
  destruct (validation_rule_order pasta_book
              [("type", PStr "ingredient"); ("name", PStr "egg");
               ("cookTime", PInt (-1))]) as (_ & _ & Hcook); [done|].
  apply Hcook; [done|by eexists|done].
Defined.

Lemma bun_same_answer :
  (create_entry ∅ (recipe_payload "bun" [item_payload "dough" 2])).1
  = (create_entry pasta_book (recipe_payload "bun" [item_payload "dough" 2])).1.
Proof.
  apply create_entry_reads_own_name. intros name [= <-].
  assert (pasta_book !! "bun" = None) as -> by by vm_compute.
  by rewrite lookup_empty.
Defined.


Lemma pasta_after_bread :
  get_base_ingredient_counts 3
    (create_entry pasta_book (ingredient_payload "bread" 4)).2
    (PStr "pasta") (PInt 1)
  = Return (PDict [("flour", PInt 2); ("egg", PInt 3)]).
Proof.
  apply resolution_stable; [apply posted_wf | by vm_compute].
Defined.

Lemma pasta_summary_after_bread :
  summary 3 (create_entry pasta_book (ingredient_payload "bread" 4)).2
    (Some "pasta")
  = Return (Json (PDict [("name", PStr "pasta"); ("cookTime", PInt 30);
                         ("ingredients",
                          PList [PDict [("name", PStr "flour"); ("quantity", PInt 2)];
                                 PDict [("name", PStr "egg"); ("quantity", PInt 3)]])])
            200).
Proof.
  apply summary_stable; [apply posted_wf | by vm_compute].
Defined.

Lemma water_without_items :
  (create_entry pasta_book (recipe_object "water" [])).1 = Return Created ∧
  ∀ limit multiplier,
    get_base_ingredient_counts (S limit)
      (create_entry pasta_book (recipe_object "water" [])).2
      (PStr "water") (PInt multiplier) = Return (PDict []) ∧
    summary (S limit) (create_entry pasta_book (recipe_object "water" [])).2
      (Some "water")
    = Return (Json (PDict [("name", PStr "water"); ("cookTime", PInt 0);
                           ("ingredients", PList [])]) 200).
Proof.
  apply empty_recipe; [apply posted_wf | done | by vm_compute].
Defined.

Lemma sourdough_requires_sourdough :
  (create_entry pasta_book
     (recipe_object "sourdough" [item_object "sourdough" 1])).1
  = Return Created ∧
  ∀ limit,
    get_base_ingredient_counts limit
      (create_entry pasta_book
         (recipe_object "sourdough" [item_object "sourdough" 1])).2
      (PStr "sourdough") (PInt 1) = Raise RecursionError ∧
    summary limit
      (create_entry pasta_book
         (recipe_object "sourdough" [item_object "sourdough" 1])).2
      (Some "sourdough") = Return IngredientResolutionFailed.
Proof.
  apply self_requiring_recipe; [apply posted_wf | done | by vm_compute].
Defined.

Lemma statuses_of_egg :
  ((create_entry pasta_book (ingredient_payload "egg" 10)).1
   = Return DuplicateName →
   (DuplicateName : response Empty_set) = Created
   ∨ ∃ body, (DuplicateName : response Empty_set) = Text body 400) ∧
  (summary 3 pasta_book (Some "egg") = Return NotARecipe →
   (∃ body, (NotARecipe : response Empty_set) = Json body 200)
   ∨ ∃ body, (NotARecipe : response Empty_set) = Text body 400).
Proof.
  split.
  - apply (handler_statuses pasta_book 3 (ingredient_payload "egg" 10) None).
  - apply (handler_statuses pasta_book 3 PNone (Some "egg")).
Defined.



(** * Properties of [parse_handwriting] *)

Section HandwritingProperties.
Variable isspace : N → bool.

(** What the properties below need of the interpreter's table: the space is
    whitespace, and no ASCII letter is. *)
Hypothesis isspace_space : isspace 32 = true.
Hypothesis isspace_letter : ∀ c, is_letter c = true → isspace c = false.

Local Abbreviation separator := (separator isspace).
Local Abbreviation sub_separators := (sub_separators isspace).
Local Abbreviation lstrip := (lstrip isspace).
Local Abbreviation rstrip := (rstrip isspace).
Local Abbreviation strip := (strip isspace).
Local Abbreviation sub_others := (sub_others isspace).
Local Abbreviation cleaned := (cleaned isspace).
Local Abbreviation parse_handwriting := (parse_handwriting isspace).

Implicit Types (c : N) (s r : list N).

Local Ltac cases :=
  unfold to_upper, to_lower, is_letter, is_upper, is_lower in *;
  repeat match goal with
         | |- context [N.leb ?a ?b] => destruct (N.leb_spec a b)
         | |- context [N.eqb ?a ?b] => destruct (N.eqb_spec a b)
         | H : context [N.leb ?a ?b] |- _ => destruct (N.leb_spec a b)
         | H : context [N.eqb ?a ?b] |- _ => destruct (N.eqb_spec a b)
         end;
  simpl in *; try done; try lia.

Lemma is_letter_to_upper c : is_letter (to_upper c) = is_letter c.
Proof. cases. Qed.

Lemma is_letter_to_lower c : is_letter (to_lower c) = is_letter c.
Proof. cases. Qed.

Lemma is_letter_not_space c : is_letter c = true → c ≠ 32%N.
Proof. intros H ->. done. Qed.

Lemma to_upper_space : to_upper 32 = 32%N.
Proof. done. Qed.

Lemma to_lower_to_upper c : to_lower (to_upper c) = to_lower c.
Proof. cases. Qed.

Lemma to_lower_to_lower c : to_lower (to_lower c) = to_lower c.
Proof. cases. Qed.

Lemma to_upper_to_upper c : to_upper (to_upper c) = to_upper c.
Proof. cases. Qed.

Lemma separator_letter c : is_letter c = true → separator c = false.
Proof.
  intros Hc. unfold separator. rewrite (isspace_letter c Hc). cases.
Qed.

(** ** The alphabet of the result *)

Lemma sub_separators_alphabet inside s :
  Forall (λ c, c = 32%N ∨ separator c = false) (sub_separators inside s).
Proof.
  revert inside. induction s as [|c s IH]; intros inside; simpl; [constructor|].
  destruct (separator c) eqn:Hc.
  - destruct inside; [apply IH|]. constructor; [by left|apply IH].
  - constructor; [by right|apply IH].
Qed.

Lemma lstrip_Forall (P : N → Prop) s : Forall P s → Forall P (lstrip s).
Proof.
  induction 1 as [|c s Hc Hs IH]; simpl; [constructor|].
  destruct (isspace c); [done|by constructor].
Qed.

Lemma rstrip_Forall (P : N → Prop) s : Forall P s → Forall P (rstrip s).
Proof.
  induction 1 as [|c s Hc Hs IH]; simpl; [constructor|].
  destruct (rstrip s) as [|c' r].
  - destruct (isspace c); repeat constructor; done.
  - by constructor.
Qed.

Lemma elem_of_filter_bool (f : N → bool) c s :
  c ∈ List.filter f s ↔ c ∈ s ∧ f c = true.
Proof. by rewrite !list_elem_of_In, filter_In. Qed.

Lemma cleaned_alphabet s :
  Forall (λ c, c = 32%N ∨ is_letter c = true) (cleaned s).
Proof.
  unfold cleaned, sub_others.
  apply Forall_forall. intros c [Hin Hkeep]%elem_of_filter_bool.
  pose proof (rstrip_Forall _ _ (lstrip_Forall _ _
                (sub_separators_alphabet false s))) as Hall.
  rewrite Forall_forall in Hall. destruct (Hall c Hin) as [->|Hsep]; [by left|].
  right. unfold separator in Hsep.
  apply orb_false_iff in Hsep as [[Hspace _]%orb_false_iff _].
  by rewrite Hspace in Hkeep.
Qed.

Lemma title_alphabet previous s :
  Forall (λ c, c = 32%N ∨ is_letter c = true) s →
  Forall (λ c, c = 32%N ∨ is_letter c = true) (title previous s).
Proof.
  intros Hs. revert previous.
  induction Hs as [|c s Hc Hs IH]; intros previous; simpl; constructor; [|apply IH].
  destruct Hc as [->|Hc]; [left; by destruct previous|right].
  destruct previous; by rewrite ?is_letter_to_lower, ?is_letter_to_upper.
Qed.

Lemma parse_handwriting_Some s r :
  parse_handwriting s = Some r ↔ cleaned s ≠ [] ∧ r = title false (cleaned s).
Proof.
  unfold parse_handwriting. destruct (cleaned s) as [|c t]; simpl.
  - split; [done|by intros [??]].
  - split; [by intros [= <-]|by intros [_ ->]].
Qed.

(** A result is made of spaces and ASCII letters, whatever the input was. *)
Theorem parse_handwriting_alphabet s r :
  parse_handwriting s = Some r →
  Forall (λ c, c = 32%N ∨ is_letter c = true) r.
Proof.
  intros [_ ->]%parse_handwriting_Some. apply title_alphabet, cleaned_alphabet.
Qed.

(** ** Capitals *)

Lemma title_capitals previous s r1 a b r2 :
  title previous s = r1 ++ a :: b :: r2 → is_letter b = true →
  if is_letter a then is_lower b = true else is_upper b = true.
Proof.
  revert previous s. induction r1 as [|x r1 IH]; intros previous s.
  - destruct s as [|c [|d s]]; simpl; try done. intros [= <- <- _] Hb.
    assert (is_letter (if previous then to_lower c else to_upper c) = is_letter c)
      as -> by (destruct previous; by rewrite ?is_letter_to_lower, ?is_letter_to_upper).
    destruct (is_letter c); revert Hb; cases.
  - destruct s as [|c s]; simpl; [done|]. intros [= _ Hs]. by eapply IH.
Qed.

(** In a result every letter that follows a letter is in lower case, and
    every other letter, the first one or one after a space, is a capital. *)
Theorem parse_handwriting_capitals s r :
  parse_handwriting s = Some r →
  (∀ c r', r = c :: r' → is_letter c = true → is_upper c = true) ∧
  (∀ r1 a b r2, r = r1 ++ a :: b :: r2 → is_letter b = true →
     if is_letter a then is_lower b = true else is_upper b = true).
Proof.
  intros [_ ->]%parse_handwriting_Some. split.
  - intros c r'. destruct (cleaned s) as [|d t]; simpl; [done|].
    intros [= <- _]. cases.
  - intros r1 a b r2. apply title_capitals.
Qed.

(** ** The letters *)

Lemma letters_sub_separators inside s :
  List.filter is_letter (sub_separators inside s) = List.filter is_letter s.
Proof.
  revert inside. induction s as [|c s IH]; intros inside; simpl; [done|].
  destruct (separator c) eqn:Hsep.
  - assert (is_letter c = false) as ->.
    { destruct (is_letter c) eqn:Hc; [|done].
      by rewrite (separator_letter c Hc) in Hsep. }
    destruct inside; simpl; apply IH.
  - simpl. by rewrite IH.
Qed.

Lemma letters_lstrip s :
  List.filter is_letter (lstrip s) = List.filter is_letter s.
Proof.
  induction s as [|c s IH]; simpl; [done|].
  destruct (isspace c) eqn:Hspace; [|done].
  destruct (is_letter c) eqn:Hc; [|done].
  by rewrite (isspace_letter c Hc) in Hspace.
Qed.

Lemma letters_rstrip s :
  List.filter is_letter (rstrip s) = List.filter is_letter s.
Proof.
  induction s as [|c s IH]; simpl; [done|].
  destruct (rstrip s) as [|d r]; simpl in *.
  - rewrite <- IH. destruct (isspace c) eqn:Hspace; [|done]. simpl.
    destruct (is_letter c) eqn:Hc; [|done].
    by rewrite (isspace_letter c Hc) in Hspace.
  - by rewrite IH.
Qed.

Lemma letters_sub_others s :
  List.filter is_letter (sub_others s) = List.filter is_letter s.
Proof.
  unfold sub_others. induction s as [|c s IH]; simpl; [done|].
  destruct (is_letter c) eqn:Hc.
  - rewrite orb_true_r. simpl. by rewrite Hc, IH.
  - rewrite orb_false_r. destruct (isspace c); simpl; by rewrite ?Hc, IH.
Qed.

Lemma letters_cleaned s :
  List.filter is_letter (cleaned s) = List.filter is_letter s.
Proof.
  unfold cleaned, strip.
  by rewrite letters_sub_others, letters_rstrip, letters_lstrip,
    letters_sub_separators.
Qed.

Lemma letters_title previous s :
  to_lower <$> List.filter is_letter (title previous s)
  = to_lower <$> List.filter is_letter s.
Proof.
  revert previous. induction s as [|c s IH]; intros previous; simpl; [done|].
  assert (is_letter (if previous then to_lower c else to_upper c) = is_letter c)
    as -> by (destruct previous; by rewrite ?is_letter_to_lower, ?is_letter_to_upper).
  destruct (is_letter c); [|apply IH]. simpl. rewrite IH. f_equal.
  destruct previous; [apply to_lower_to_lower|apply to_lower_to_upper].
Qed.

(** The letters of a result are the ASCII letters of the input, in their
    order and up to their case: only the case of a letter changes, and
    nothing but letters and spaces is there. *)
Theorem parse_handwriting_letters s r :
  parse_handwriting s = Some r →
  to_lower <$> List.filter is_letter r = to_lower <$> List.filter is_letter s.
Proof.
  intros [_ ->]%parse_handwriting_Some.
  by rewrite letters_title, letters_cleaned.
Qed.

(** ** When there is a result *)

Lemma sub_separators_run s :
  Forall (λ c, separator c = true) s → sub_separators true s = [].
Proof. induction 1 as [|c s Hc Hs IH]; simpl; [done|]. by rewrite Hc. Qed.

Lemma cleaned_separators s :
  Forall (λ c, separator c = true) s → cleaned s = [].
Proof.
  intros Hs. unfold cleaned, strip.
  destruct Hs as [|c s Hc Hs]; simpl; [done|].
  rewrite Hc, (sub_separators_run s Hs). simpl. by rewrite isspace_space.
Qed.

Lemma cleaned_letter s :
  Exists (λ c, is_letter c = true) s → cleaned s ≠ [].
Proof.
  intros Hs Hnil. pose proof (letters_cleaned s) as Hletters.
  rewrite Hnil in Hletters. simpl in Hletters.
  apply Exists_exists in Hs as (c & Hin & Hc).
  assert (c ∈ List.filter is_letter s) as Hc'.
  { apply elem_of_filter_bool. done. }
  rewrite <- Hletters in Hc'. by apply elem_of_nil in Hc'.
Qed.

(** There is no result for the empty string and for a string of nothing but
    whitespace, underscores and hyphens; there is one for every string with
    an ASCII letter in it. *)
Theorem parse_handwriting_result s :
  (Forall (λ c, separator c = true) s → parse_handwriting s = None) ∧
  (Exists (λ c, is_letter c = true) s → is_Some (parse_handwriting s)).
Proof.
  split.
  - intros Hs. unfold parse_handwriting. by rewrite (cleaned_separators s Hs).
  - intros Hs%cleaned_letter. unfold parse_handwriting.
    destruct (cleaned s); [done|]. by eexists.
Qed.

(** ** Input of letters and separators only *)

Lemma lstrip_sub_separators inside s :
  lstrip (sub_separators inside s) = sub_separators true s.
Proof.
  revert inside. induction s as [|c s IH]; intros inside; simpl; [done|].
  destruct (separator c) eqn:Hsep.
  - destruct inside; [apply IH|]. simpl. rewrite isspace_space. apply IH.
  - simpl. unfold separator in Hsep.
    apply orb_false_iff in Hsep as [[-> _]%orb_false_iff _]. done.
Qed.

Lemma rstrip_sub_separators inside s :
  Forall (λ c, is_letter c = true ∨ separator c = true) s →
  match rstrip (sub_separators inside s) with
  | [] => True
  | r => spaced_words inside r = true
  end.
Proof.
  intros Hs. revert inside.
  induction Hs as [|c s Hc Hs IH]; intros inside; simpl; [done|].
  destruct (separator c) eqn:Hsep.
  - destruct inside; [apply IH|]. simpl. specialize (IH true).
    destruct (rstrip (sub_separators true s)) as [|d r]; [by rewrite isspace_space|].
    simpl. done.
  - destruct Hc as [Hc|Hc]; [|congruence]. simpl. specialize (IH false).
    assert (N.eqb c 32 = false) as Hne.
    { apply N.eqb_neq. by apply is_letter_not_space. }
    destruct (rstrip (sub_separators false s)) as [|d r].
    + rewrite (isspace_letter c Hc). simpl. rewrite Hne, Hc. by destruct inside.
    + cbn [spaced_words]. rewrite Hne, Hc. done.
Qed.

Lemma spaced_words_sub_others after_space r :
  spaced_words after_space r = true → sub_others r = r.
Proof.
  unfold sub_others. revert after_space.
  induction r as [|c r IH]; intros after_space; simpl; [done|].
  destruct (N.eqb_spec c 32) as [->|Hne].
  - rewrite isspace_space. simpl. intros [_ Hr]%andb_true_iff. by rewrite (IH true).
  - intros [Hc Hr]%andb_true_iff. rewrite Hc, orb_true_r. by rewrite (IH false).
Qed.

Lemma spaced_words_title after_space previous r :
  spaced_words after_space r = true →
  spaced_words after_space (title previous r) = true.
Proof.
  revert after_space previous.
  induction r as [|c r IH]; intros after_space previous; simpl; [done|].
  destruct (N.eqb_spec c 32) as [->|Hne].
  - intros [-> Hr]%andb_true_iff.
    assert ((if previous then to_lower 32 else to_upper 32) = 32%N) as ->
      by by destruct previous.
    simpl. by apply IH.
  - intros [Hc Hr]%andb_true_iff.
    assert (N.eqb (if previous then to_lower c else to_upper c) 32 = false) as ->.
    { apply N.eqb_neq. apply is_letter_not_space.
      destruct previous; by rewrite ?is_letter_to_lower, ?is_letter_to_upper. }
    assert (is_letter (if previous then to_lower c else to_upper c) = true) as ->
      by (destruct previous; by rewrite ?is_letter_to_lower, ?is_letter_to_upper).
    by apply IH.
Qed.

Lemma spaced_words_sub_separators after_space inside r :
  spaced_words after_space r = true →
  after_space = true ∨ inside = false →
  sub_separators inside r = r.
Proof.
  revert after_space inside.
  induction r as [|c r IH]; intros after_space inside; simpl; [done|].
  destruct (N.eqb_spec c 32) as [->|Hne].
  - intros [Hafter Hr]%andb_true_iff [->| ->]; [done|].
    unfold separator. rewrite isspace_space. simpl.
    by rewrite (IH true true) by auto.
  - intros [Hc Hr]%andb_true_iff _. rewrite (separator_letter c Hc).
    by rewrite (IH false false) by auto.
Qed.

Lemma spaced_words_lstrip r : spaced_words true r = true → lstrip r = r.
Proof.
  destruct r as [|c r]; simpl; [done|].
  destruct (N.eqb_spec c 32); [done|]. intros [Hc _]%andb_true_iff.
  by rewrite (isspace_letter c Hc).
Qed.

Lemma spaced_words_rstrip after_space r :
  spaced_words after_space r = true → rstrip r = r.
Proof.
  revert after_space. induction r as [|c r IH]; intros after_space; [done|].
  cbn [spaced_words rstrip]. destruct (N.eqb_spec c 32) as [->|Hne].
  - intros [_ Hr]%andb_true_iff. rewrite (IH true Hr).
    destruct r; [done|done].
  - intros [Hc Hr]%andb_true_iff. rewrite (IH false Hr).
    destruct r; [|done]. by rewrite (isspace_letter c Hc).
Qed.

Lemma title_title previous s : title previous (title previous s) = title previous s.
Proof.
  revert previous. induction s as [|c s IH]; intros previous; simpl; [done|].
  assert (is_letter (if previous then to_lower c else to_upper c) = is_letter c)
    as -> by (destruct previous; by rewrite ?is_letter_to_lower, ?is_letter_to_upper).
  rewrite IH. f_equal.
  destruct previous; [apply to_lower_to_lower|apply to_upper_to_upper].
Qed.

Lemma cleaned_spaced_words s :
  Forall (λ c, is_letter c = true ∨ separator c = true) s →
  cleaned s = [] ∨ spaced_words true (cleaned s) = true.
Proof.
  intros Hs. unfold cleaned, strip. rewrite lstrip_sub_separators.
  pose proof (rstrip_sub_separators true s Hs) as Hr.
  destruct (rstrip (sub_separators true s)) as [|c r]; [by left|right].
  by rewrite (spaced_words_sub_others true).
Qed.

Lemma parse_handwriting_fixed r :
  spaced_words true r = true → title false r = r →
  parse_handwriting r = Some r.
Proof.
  intros Hr Htitle. apply parse_handwriting_Some.
  assert (cleaned r = r) as ->.
  { unfold cleaned, strip.
    rewrite (spaced_words_sub_separators true false r) by auto.
    rewrite (spaced_words_lstrip r Hr), (spaced_words_rstrip true r Hr).
    by apply (spaced_words_sub_others true). }
  split; [by destruct r|done].
Qed.

Lemma parse_handwriting_words s r :
  Forall (λ c, is_letter c = true ∨ separator c = true) s →
  parse_handwriting s = Some r →
  spaced_words true r = true ∧ parse_handwriting r = Some r.
Proof.
  intros Hs [Hne ->]%parse_handwriting_Some.
  destruct (cleaned_spaced_words s Hs) as [?|Hwords]; [done|].
  pose proof (spaced_words_title true false _ Hwords) as Hr.
  split; [done|]. apply parse_handwriting_fixed; [done|apply title_title].
Qed.

(** On an input of ASCII letters, whitespace, underscores and hyphens only,
    a result is made of words with one space between two of them and none in
    front or at the end, and [parse_handwriting] gives it back as it is. *)
Theorem parse_handwriting_normal_form s r :
  Forall (λ c, is_letter c = true ∨ separator c = true) s →
  parse_handwriting s = Some r →
  spaced_words true r = true ∧ parse_handwriting r = Some r.
Proof. apply parse_handwriting_words. Qed.

(** On any input, a second pass over a result gives nothing or such words,
    which a third pass leaves as they are. *)
Theorem parse_handwriting_twice s r :
  parse_handwriting s = Some r →
  parse_handwriting r = None ∨
  ∃ r', parse_handwriting r = Some r' ∧
        spaced_words true r' = true ∧ parse_handwriting r' = Some r'.
Proof.
  intros [_ ->]%parse_handwriting_Some.
  destruct (parse_handwriting (title false (cleaned s))) as [r'|] eqn:Hsecond;
    [right|by left].
  exists r'. split; [done|]. apply (parse_handwriting_words _ _ ) in Hsecond; [done|].
  eapply Forall_impl; [apply title_alphabet, cleaned_alphabet|].
  intros c [->|Hc]; [right|by left]. unfold separator. by rewrite isspace_space.
Qed.

End HandwritingProperties.

(** ** Instances for [parse_handwriting] *)

Lemma unicode_isspace_letter c :
  is_letter c = true → unicode_isspace c = false.
Proof.
  intros Hc. assert (65 ≤ c ≤ 122)%N as Hrange.
  { unfold is_letter, is_upper, is_lower in Hc.
    apply orb_true_iff in Hc as [Hc|Hc];
      apply andb_true_iff in Hc as [?%N.leb_le ?%N.leb_le]; lia. }
  unfold unicode_isspace.
  rewrite (proj2 (N.leb_gt c 13)), (proj2 (N.leb_gt c 32)),
    (proj2 (N.leb_gt 8192 c)) by lia.
  rewrite !(proj2 (N.eqb_neq c _)) by lia.
  by rewrite !andb_false_r.
Qed.

Lemma risotto_alphabet :
  Forall (λ c, c = 32%N ∨ is_letter c = true) (code_points "Rizz Risotto").
Proof.
  apply (parse_handwriting_alphabet unicode_isspace
           (code_points "Riz@z RISO00tto!")).
  by vm_compute.
Defined.

Lemma alfredo_capitals :
  (∀ c r', code_points "Alpha Alfredo" = c :: r' →
     is_letter c = true → is_upper c = true) ∧
  (∀ r1 a b r2, code_points "Alpha Alfredo" = r1 ++ a :: b :: r2 →
     is_letter b = true →
     if is_letter a then is_lower b = true else is_upper b = true).
Proof.
  apply (parse_handwriting_capitals unicode_isspace (code_points "alpHa-alFRedo")).
  by vm_compute.
Defined.

Lemma risotto_letters :
  to_lower <$> List.filter is_letter (code_points "Rizz Risotto")
  = to_lower <$> List.filter is_letter (code_points "Riz@z RISO00tto!").
Proof.
  apply (parse_handwriting_letters unicode_isspace unicode_isspace_letter).
  by vm_compute.
Defined.

Lemma dashes_and_meatball :
  parse_handwriting unicode_isspace (code_points " _- ") = None ∧
  is_Some (parse_handwriting unicode_isspace (code_points "42 meatball")).
Proof.
  split.
  - apply (parse_handwriting_result unicode_isspace eq_refl unicode_isspace_letter).
    repeat constructor.
  - apply (parse_handwriting_result unicode_isspace eq_refl unicode_isspace_letter).
    apply Exists_exists. exists 109%N. split; [|done].
    apply list_elem_of_In. vm_compute. tauto.
Defined.

Lemma a_b_c_words :
  spaced_words true (code_points "A B C") = true ∧
  parse_handwriting unicode_isspace (code_points "A B C")
  = Some (code_points "A B C").
Proof.
  apply (parse_handwriting_normal_form unicode_isspace eq_refl
           unicode_isspace_letter (code_points "  a__b -- c  ")).
  - repeat constructor; by vm_compute.
  - by vm_compute.
Defined.

Lemma one_a_twice :
  parse_handwriting unicode_isspace (code_points " A") = None ∨
  ∃ r', parse_handwriting unicode_isspace (code_points " A") = Some r' ∧
        spaced_words true r' = true ∧
        parse_handwriting unicode_isspace r' = Some r'.
Proof.
  apply (parse_handwriting_twice unicode_isspace eq_refl unicode_isspace_letter
           (code_points "1 a")).
  by vm_compute.
Defined.
